(** * Untouchaballz: the detection-to-command pipeline of [main.cpp]

    A shallow embedding of the colour tracker and follow controller of
    [src/main.cpp], and the properties its design document states about it.

    Conventions of the embedding.
    - A C++ [int] is a [Z]; the arithmetic operators wrap to 32 bits
      ([int_add], [int_sub], [int_mul]) and [/] truncates toward zero
      ([int_div]).  Signed overflow is undefined behaviour in C++; the wrap is
      what the usual targets do, and the statements below that depend on a
      product or a sum say that it is representable ([in_int]).
    - The velocity set-points [vx], [vy], [vz], [vr] are binary64 values: the
      kernel's primitive floats, so [x / -200.0] is the IEEE quotient.
    - [area] is the zeroth moment of an 8-bit single-channel image of
      640 x 360 pixels: a sum of at most 230400 values below 256.  The [double]
      that holds it is an integer below 2^53, so it is kept as the [Z] it
      equals, and its comparisons with an [int] promoted to [double] are the
      comparisons of [Z].
    - OpenCV's image operations ([morphologyEx], [findContours],
      [contourArea], [drawContours]) are an interface ([Vision]); [inRange]
      and [moments] are written out.
    - The files of [cv::FileStorage] are finite maps from key to value, the
      commands sent to [ardrone] are logged in order.
    - The sliders of the control window are bound to configuration globals by
      address; the positions HighGUI stores while [waitKey] runs are part of
      what an iteration reads. *)

From Stdlib Require Import ZArith Lia Bool List Ascii Floats Uint63.
From stdpp Require Import gmap strings.
Import ListNotations.

#[local] Set Warnings "-inexact-float".
#[local] Open Scope Z_scope.

(** ** Machine integers *)

Definition INT_MIN : Z := -2147483648.
Definition INT_MAX : Z := 2147483647.

Definition in_int (z : Z) : Prop := INT_MIN <= z <= INT_MAX.

(** Two's-complement wrap of a mathematical result to a 32-bit [int]. *)
Definition wrap (z : Z) : Z := (z + 2147483648) mod 4294967296 - 2147483648.

Definition int_add (a b : Z) : Z := wrap (a + b).
Definition int_sub (a b : Z) : Z := wrap (a - b).
Definition int_mul (a b : Z) : Z := wrap (a * b).
(** C++ [/] on [int]: the quotient truncated toward zero. *)
Definition int_div (a b : Z) : Z := wrap (Z.quot a b).
(** C++ [!a] stored back into an [int]. *)
Definition int_not (a : Z) : Z := if a =? 0 then 1 else 0.
(** An [int] used as a condition. *)
Definition truthy (a : Z) : bool := negb (a =? 0).

(** A character literal as the [int] it is compared with. *)
Definition chr (c : ascii) : Z := Z.of_N (N_of_ascii c).

(** ** Doubles *)

Abbreviation double := float.

(** The conversion of an [int] to [double] (exact: 32 bits fit in 53). *)
Definition double_of_int (z : Z) : double :=
  if z <? 0 then PrimFloat.opp (PrimFloat.of_uint63 (Uint63.of_Z (- z)))
  else PrimFloat.of_uint63 (Uint63.of_Z z).

(** ** Constants of the program *)

Definition WIDTH : Z := 640.
Definition HEIGHT : Z := 360.
Definition STAT_REFRESH_RATE : Z := 15.

(** ** The global variables

    The ten tunable values that [saveConfigValues] persists are grouped in
    [Config], the four velocity set-points in [Setpoints]; [Globals] holds
    them with the remaining globals.  The three overlay images are
    presentation state and are left out. *)

Record Config : Type := mkConfig {
  hue_low : Z;  hue_high : Z;
  sat_low : Z;  sat_high : Z;
  val_low : Z;  val_high : Z;
  min_area : Z; max_area : Z;
  deadzone_x : Z; deadzone_y : Z
}.

Record Setpoints : Type := mkSetpoints {
  vx : double;  (* forward / back *)
  vy : double;  (* left / right *)
  vz : double;  (* up / down *)
  vr : double   (* yaw rate *)
}.

Record Globals : Type := mkGlobals {
  stat_count : Z;
  follow : Z;
  auto_land : Z;
  camera : Z;
  detected : Z;
  pos_x : Z;
  pos_y : Z;
  area : Z;
  cfg : Config;
  vel : Setpoints
}.

(** The initial values of the globals (lines 16-40); the doubles without an
    initialiser are zero-initialised. *)
Definition default_config : Config :=
  mkConfig 0 179 0 255 0 255 0 500 320 180.

Definition zero_setpoints : Setpoints := mkSetpoints 0 0 0 0.

Definition initial_globals : Globals :=
  mkGlobals 1 0 0 0 0 0 0 0 default_config zero_setpoints.

(** Assignments to one global. *)
Definition set_vx (v : double) (s : Setpoints) := mkSetpoints v (vy s) (vz s) (vr s).
Definition set_vy (v : double) (s : Setpoints) := mkSetpoints (vx s) v (vz s) (vr s).
Definition set_vz (v : double) (s : Setpoints) := mkSetpoints (vx s) (vy s) v (vr s).
Definition set_vr (v : double) (s : Setpoints) := mkSetpoints (vx s) (vy s) (vz s) v.

Definition set_stat_count (v : Z) (g : Globals) :=
  mkGlobals v (follow g) (auto_land g) (camera g) (detected g) (pos_x g) (pos_y g) (area g) (cfg g) (vel g).
Definition set_follow (v : Z) (g : Globals) :=
  mkGlobals (stat_count g) v (auto_land g) (camera g) (detected g) (pos_x g) (pos_y g) (area g) (cfg g) (vel g).
Definition set_auto_land (v : Z) (g : Globals) :=
  mkGlobals (stat_count g) (follow g) v (camera g) (detected g) (pos_x g) (pos_y g) (area g) (cfg g) (vel g).
Definition set_camera (v : Z) (g : Globals) :=
  mkGlobals (stat_count g) (follow g) (auto_land g) v (detected g) (pos_x g) (pos_y g) (area g) (cfg g) (vel g).
Definition set_detected (v : Z) (g : Globals) :=
  mkGlobals (stat_count g) (follow g) (auto_land g) (camera g) v (pos_x g) (pos_y g) (area g) (cfg g) (vel g).
Definition set_pos_x (v : Z) (g : Globals) :=
  mkGlobals (stat_count g) (follow g) (auto_land g) (camera g) (detected g) v (pos_y g) (area g) (cfg g) (vel g).
Definition set_pos_y (v : Z) (g : Globals) :=
  mkGlobals (stat_count g) (follow g) (auto_land g) (camera g) (detected g) (pos_x g) v (area g) (cfg g) (vel g).
Definition set_area (v : Z) (g : Globals) :=
  mkGlobals (stat_count g) (follow g) (auto_land g) (camera g) (detected g) (pos_x g) (pos_y g) v (cfg g) (vel g).
Definition set_cfg (v : Config) (g : Globals) :=
  mkGlobals (stat_count g) (follow g) (auto_land g) (camera g) (detected g) (pos_x g) (pos_y g) (area g) v (vel g).
Definition set_vel (v : Setpoints) (g : Globals) :=
  mkGlobals (stat_count g) (follow g) (auto_land g) (camera g) (detected g) (pos_x g) (pos_y g) (area g) (cfg g) v.

(** ** The world outside the globals *)

(** The discrete commands of the [ARDrone] object. *)
Inductive Command : Type :=
  | Takeoff | Landing | SetCalibration | SetFlatTrim | Emergency.

#[global] Instance Command_eq_dec : EqDecision Command.
Proof. solve_decision. Defined.

(** The two configuration files.  A file that does not exist, or a key it
    does not hold, reads as an empty node, which [>>] turns into 0: a missing
    file is the empty map. *)
Record Files : Type := mkFiles {
  front_camera_config : gmap string Z;
  bottom_camera_config : gmap string Z
}.

Record World : Type := mkWorld {
  glob : Globals;
  files : Files;
  sent : list Command      (* commands issued so far, oldest first *)
}.

Definition set_glob (g : Globals) (w : World) := mkWorld g (files w) (sent w).
Definition set_files (f : Files) (w : World) := mkWorld (glob w) f (sent w).
Definition send (c : Command) (w : World) := mkWorld (glob w) (files w) (sent w ++ [c]).

(** ** The deadzone (lines 127-136 and the conditions of lines 322-349) *)

(** The corners of the rectangle that [drawDeadzone] draws. *)
Definition drawDeadzone (g : Globals) : (Z * Z) * (Z * Z) :=
  let x1 := int_sub (int_div WIDTH 2) (int_div (deadzone_x (cfg g)) 2) in
  let y1 := int_sub (int_div HEIGHT 2) (int_div (deadzone_y (cfg g)) 2) in
  let x2 := int_add (int_div WIDTH 2) (int_div (deadzone_x (cfg g)) 2) in
  let y2 := int_add (int_div HEIGHT 2) (int_div (deadzone_y (cfg g)) 2) in
  ((x1, y1), (x2, y2)).

(** [pos_x < (WIDTH - deadzone_x) / 2 || pos_x > (WIDTH + deadzone_x) / 2] *)
Definition x_outside (g : Globals) : bool :=
  (pos_x g <? int_div (int_sub WIDTH (deadzone_x (cfg g))) 2)
  || (pos_x g >? int_div (int_add WIDTH (deadzone_x (cfg g))) 2).

(** [pos_y < (HEIGHT - deadzone_y) / 2 || pos_y > (HEIGHT + deadzone_y) / 2] *)
Definition y_outside (g : Globals) : bool :=
  (pos_y g <? int_div (int_sub HEIGHT (deadzone_y (cfg g))) 2)
  || (pos_y g >? int_div (int_add HEIGHT (deadzone_y (cfg g))) 2).

(** The pair the design document calls [outsideDeadzone]. *)
Definition outsideDeadzone (g : Globals) : bool * bool := (x_outside g, y_outside g).

(** ** [followObject] (lines 314-365) *)

(** [(pos - centre) / gain] with [pos - centre] an [int] and [gain] a double. *)
Definition proportional (pos centre : Z) (gain : double) : double :=
  PrimFloat.div (double_of_int (int_sub pos centre)) gain.

Definition follow_front (g : Globals) : Globals :=
  let g := if y_outside g
           then set_vel (set_vz (proportional (pos_y g) (int_div HEIGHT 2) (-250)%float) (vel g)) g
           else g in
  let g := if x_outside g
           then set_vel (set_vr (proportional (pos_x g) (int_div WIDTH 2) (-200)%float) (vel g)) g
           else g in
  let g := if area g <? int_mul (max_area (cfg g)) 100000
           then set_vel (set_vx (0.3)%float (vel g)) g
           else g in
  let g := if area g >? int_mul (int_add (max_area (cfg g)) 10) 100000
           then set_vel (set_vx (-0.3)%float (vel g)) g
           else g in
  g.

Definition follow_bottom (w : World) : World :=
  let g := glob w in
  let g := if y_outside g
           then set_vel (set_vx (proportional (pos_y g) (int_div HEIGHT 2) (-400)%float) (vel g)) g
           else g in
  let g := if x_outside g
           then set_vel (set_vy (proportional (pos_x g) (int_div WIDTH 2) (-800)%float) (vel g)) g
           else g in
  if truthy (auto_land g) then
    let g := set_vel (set_vz (-0.1)%float (vel g)) g in
    if area g >? int_mul (max_area (cfg g)) 100000
    then send Landing (set_glob g w)
    else set_glob g w
  else set_glob g w.

Definition followObject (w : World) : World :=
  if camera (glob w) =? 0 then set_glob (follow_front (glob w)) w
  else if camera (glob w) =? 1 then follow_bottom w
  else w.

(** ** Configuration files (lines 138-190) *)

#[local] Open Scope string_scope.

(** [fs << key << value] for the ten values, in the order of the source, into
    a file opened with [FileStorage::WRITE] (which starts it empty). *)
Definition write_config (c : Config) : gmap string Z :=
  <["DeadzoneY" := deadzone_y c]>
  (<["DeadzoneX" := deadzone_x c]>
  (<["AreaMAX" := max_area c]>
  (<["AreaMIN" := min_area c]>
  (<["ValueHIGH" := val_high c]>
  (<["ValueLOW" := val_low c]>
  (<["SaturationHIGH" := sat_high c]>
  (<["SaturationLOW" := sat_low c]>
  (<["HueHIGH" := hue_high c]>
  (<["HueLOW" := hue_low c]> ∅))))))))).

(** [fs[key] >> var]: the stored value, 0 for an empty node. *)
Definition read_int (f : gmap string Z) (k : string) : Z := default 0 (f !! k).

Definition read_config (f : gmap string Z) : Config :=
  {| hue_low := read_int f "HueLOW";
     hue_high := read_int f "HueHIGH";
     sat_low := read_int f "SaturationLOW";
     sat_high := read_int f "SaturationHIGH";
     val_low := read_int f "ValueLOW";
     val_high := read_int f "ValueHIGH";
     min_area := read_int f "AreaMIN";
     max_area := read_int f "AreaMAX";
     deadzone_x := read_int f "DeadzoneX";
     deadzone_y := read_int f "DeadzoneY" |}.

#[local] Close Scope string_scope.

(** With [camera] neither 0 nor 1 no file is opened: reads see empty nodes and
    writes to a storage that is not open are dropped. *)
Definition loadConfigValues (w : World) : World :=
  let f := if camera (glob w) =? 0 then front_camera_config (files w)
           else if camera (glob w) =? 1 then bottom_camera_config (files w)
           else ∅ in
  set_glob (set_cfg (read_config f) (glob w)) w.

Definition saveConfigValues (w : World) : World :=
  let c := write_config (cfg (glob w)) in
  if camera (glob w) =? 0 then set_files (mkFiles c (bottom_camera_config (files w))) w
  else if camera (glob w) =? 1 then set_files (mkFiles (front_camera_config (files w)) c) w
  else w.

(** ** [keyFunctions] (lines 230-258)

    [controlWindow] and [drawDeadzone] rebuild presentation state only and
    leave the globals as they are; [on_ground] is what [ardrone.onGround()]
    answers. *)

(** The [if (key == 'c')] block: save, flip the camera, load. *)
Definition toggle (w : World) : World :=
  let w := saveConfigValues w in
  let w := set_glob (set_camera (int_not (camera (glob w))) (glob w)) w in
  loadConfigValues w.

Definition on_key (key : Z) (c : ascii) (f : World -> World) (w : World) : World :=
  if key =? chr c then f w else w.

Definition assign_vel (f : Setpoints -> Setpoints) (w : World) : World :=
  set_glob (set_vel (f (vel (glob w))) (glob w)) w.

Definition keyFunctions (key : Z) (on_ground : bool) (w : World) : World :=
  let w := on_key key " " (fun w => if on_ground then send Takeoff w else send Landing w) w in
  let w := on_key key "c" toggle w in
  let w := on_key key "w" (assign_vel (set_vx 1)) w in
  let w := on_key key "s" (assign_vel (set_vx (-1))) w in
  let w := on_key key "a" (assign_vel (set_vr 1)) w in
  let w := on_key key "d" (assign_vel (set_vr (-1))) w in
  let w := on_key key "q" (assign_vel (set_vy 1)) w in
  let w := on_key key "e" (assign_vel (set_vy (-1))) w in
  let w := on_key key "i" (assign_vel (set_vz 1)) w in
  let w := on_key key "k" (assign_vel (set_vz (-1))) w in
  let w := on_key key "v" (send SetCalibration) w in
  let w := on_key key "t" (send SetFlatTrim) w in
  let w := on_key key "p" (send Emergency) w in
  let w := on_key key "f" (fun w => set_glob (set_follow (int_not (follow (glob w))) (glob w)) w) w in
  let w := on_key key "l" (fun w => set_glob (set_auto_land (int_not (auto_land (glob w))) (glob w)) w) w in
  w.

(** ** [detectObject] (lines 260-312) *)

(** A single-channel 8-bit image, as rows of pixel values, and a three-channel
    one (hue, saturation, value). *)
Definition Image : Type := list (list Z).
Definition HsvImage : Type := list (list (Z * Z * Z)).
Definition Contour : Type := list (Z * Z).

Definition blank (rows cols : Z) : Image :=
  repeat (repeat 0 (Z.to_nat cols)) (Z.to_nat rows).

(** No pixel of the mask is set. *)
Definition no_foreground (m : Image) : bool := forallb (forallb (Z.eqb 0)) m.

(** [inRange(src, Scalar(l1,l2,l3), Scalar(h1,h2,h3), dst)]: 255 where every
    channel lies within its inclusive bounds, 0 elsewhere. *)
Definition inRange (src : HsvImage) (lo hi : Z * Z * Z) : Image :=
  let '(l1, l2, l3) := lo in
  let '(h1, h2, h3) := hi in
  map (map (fun '(c1, c2, c3) =>
              if (l1 <=? c1) && (c1 <=? h1) && (l2 <=? c2) && (c2 <=? h2)
                 && (l3 <=? c3) && (c3 <=? h3)
              then 255 else 0)) src.

(** The OpenCV operations the program calls and the model does not write out.
    [drawContours img cs idx colour] is the filled drawing
    ([thickness = CV_FILLED]) of contour [idx] of [cs], or of all of them when
    [idx] is negative. *)
Class Vision : Type := {
  morph_close : Image -> Image;
  findContours : Image -> list Contour;
  contourArea : Contour -> double;
  drawContours : Image -> list Contour -> Z -> Z -> Image
}.

(** What the properties below use of OpenCV's documented behaviour: a mask
    without foreground has no contour, and drawing no contour changes
    nothing. *)
Class VisionLaws (cv : Vision) : Prop := {
  findContours_background :
    forall m, no_foreground m = true -> findContours m = [];
  drawContours_nil :
    forall img idx colour, drawContours img [] idx colour = img
}.

(** The raw moments the program reads: [m00] sums the pixel values, [m10] and
    [m01] weigh them by column and by row. *)
Record Moments : Type := mkMoments { m00 : Z; m10 : Z; m01 : Z }.

Definition row_m00 (r : list Z) : Z := fold_right Z.add 0 r.

Fixpoint row_m10 (x : Z) (r : list Z) : Z :=
  match r with
  | [] => 0
  | p :: r' => x * p + row_m10 (x + 1) r'
  end.

Fixpoint moments_from (y : Z) (img : Image) : Moments :=
  match img with
  | [] => mkMoments 0 0 0
  | r :: img' =>
      let m := moments_from (y + 1) img' in
      mkMoments (row_m00 r + m00 m) (row_m10 0 r + m10 m) (y * row_m00 r + m01 m)
  end.

Definition moments (img : Image) : Moments := moments_from 0 img.

(** [(int)(m / a)] for two doubles that hold the integers [m] and [a].  Below
    2^53 in absolute value the rounded quotient truncates to the integer
    quotient (a quotient that is not an integer is at least [1/|a|] away from
    the next one, its rounding error is below that).  A zero divisor gives NaN
    or an infinity, whose conversion (like that of a quotient out of range) is
    undefined in C++; the value modelled is the one x86 produces. *)
Definition truncated_quotient (m a : Z) : Z :=
  if a =? 0 then INT_MIN
  else let q := Z.quot m a in
       if (INT_MIN <=? q) && (q <=? INT_MAX) then q else INT_MIN.

Section Detection.
Context {cv : Vision}.

(** Lines 269-274: threshold, then close with a 3 x 3 rectangle. *)
Definition segment (img_hsv : HsvImage) (c : Config) : Image :=
  morph_close (inRange img_hsv (hue_low c, sat_low c, val_low c)
                               (hue_high c, sat_high c, val_high c)).

(** Lines 278-290: the loop over the contours, from index [i] on, with
    [(largest_contour_id, contour_max_area)] as accumulator. *)
Fixpoint largest_from (i : Z) (contours : list Contour) (acc : Z * double)
  : Z * double :=
  match contours with
  | [] => acc
  | c :: rest =>
      largest_from (i + 1) rest
        (if PrimFloat.ltb (snd acc) (contourArea c) then (i, contourArea c) else acc)
  end.

Definition largest_contour_id (contours : list Contour) : Z :=
  fst (largest_from 0 contours (-1, 0%float)).

(** Lines 263-295: the image [result] handed to [moments]. *)
Definition result_image (mask : Image) : Image :=
  let contours := findContours mask in
  drawContours (blank HEIGHT WIDTH) contours (largest_contour_id contours) 255.
End Detection.

(** Lines 297-311: [area] is always stored; the position only when the area
    exceeds the scaled minimum.  The second component is the value returned. *)
Definition locate (m : Moments) (g : Globals) : Globals * Z :=
  let g := set_area (m00 m) g in
  if area g >? int_mul (min_area (cfg g)) 100000
  then (set_pos_y (truncated_quotient (m01 m) (area g))
          (set_pos_x (truncated_quotient (m10 m) (area g)) g), 1)
  else (g, 0).

Definition detectObject {cv : Vision} (img_hsv : HsvImage) (g : Globals) : Globals * Z :=
  locate (moments (result_image (segment img_hsv (cfg g)))) g.

(** ** The sliders of [controlWindow] (lines 207-222)

    [createTrackbar(name, "Control", &var, count)] binds a slider to a global:
    when the operator moves it, HighGUI stores the new position in [var].
    That happens while [waitKey] handles the events of the window.  The
    deadzone has no slider. *)

Inductive Trackbar : Type :=
  | HueLow | HueHigh | SatLow | SatHigh | ValLow | ValHigh | AreaMin | AreaMax.

(** The last argument of [createTrackbar]: the largest position. *)
Definition trackbar_count (t : Trackbar) : Z :=
  match t with
  | HueLow | HueHigh => 179
  | SatLow | SatHigh | ValLow | ValHigh => 255
  | AreaMin | AreaMax => 500
  end.

(** A slider stands between 0 and its largest position. *)
Definition slider_ok (move : Trackbar * Z) : Prop :=
  0 <= snd move <= trackbar_count (fst move).

(** The store of a new position in the bound variable. *)
Definition set_trackbar (move : Trackbar * Z) (c : Config) : Config :=
  let pos := snd move in
  match fst move with
  | HueLow => mkConfig pos (hue_high c) (sat_low c) (sat_high c) (val_low c) (val_high c)
                       (min_area c) (max_area c) (deadzone_x c) (deadzone_y c)
  | HueHigh => mkConfig (hue_low c) pos (sat_low c) (sat_high c) (val_low c) (val_high c)
                        (min_area c) (max_area c) (deadzone_x c) (deadzone_y c)
  | SatLow => mkConfig (hue_low c) (hue_high c) pos (sat_high c) (val_low c) (val_high c)
                       (min_area c) (max_area c) (deadzone_x c) (deadzone_y c)
  | SatHigh => mkConfig (hue_low c) (hue_high c) (sat_low c) pos (val_low c) (val_high c)
                        (min_area c) (max_area c) (deadzone_x c) (deadzone_y c)
  | ValLow => mkConfig (hue_low c) (hue_high c) (sat_low c) (sat_high c) pos (val_high c)
                       (min_area c) (max_area c) (deadzone_x c) (deadzone_y c)
  | ValHigh => mkConfig (hue_low c) (hue_high c) (sat_low c) (sat_high c) (val_low c) pos
                        (min_area c) (max_area c) (deadzone_x c) (deadzone_y c)
  | AreaMin => mkConfig (hue_low c) (hue_high c) (sat_low c) (sat_high c) (val_low c)
                        (val_high c) pos (max_area c) (deadzone_x c) (deadzone_y c)
  | AreaMax => mkConfig (hue_low c) (hue_high c) (sat_low c) (sat_high c) (val_low c)
                        (val_high c) (min_area c) pos (deadzone_x c) (deadzone_y c)
  end.

(** The configuration after a sequence of slider moves. *)
Definition move_config (moves : list (Trackbar * Z)) (c : Config) : Config :=
  fold_left (fun c move => set_trackbar move c) moves c.

(** The slider moves of one [waitKey], in the order they were made. *)
Fixpoint move_sliders (moves : list (Trackbar * Z)) (w : World) : World :=
  match moves with
  | [] => w
  | move :: rest =>
      move_sliders rest (set_glob (set_cfg (set_trackbar move (cfg (glob w))) (glob w)) w)
  end.

(** ** The loop of [main] (lines 389-428) *)

(** What one iteration reads from outside. *)
Record Input : Type := mkInput {
  key : Z;              (* waitKey(33): -1 when no key was pressed *)
  sliders : list (Trackbar * Z);  (* the slider moves handled by that waitKey *)
  on_ground : bool;     (* ardrone.onGround() *)
  frame : HsvImage      (* the captured frame, converted to HSV *)
}.

Definition ESC : Z := 27.

(** Lines 404-412. *)
Definition follow_stage (w : World) : World :=
  if truthy (detected (glob w))
  then if truthy (follow (glob w)) then followObject w else w
  else w.

(** Lines 414-422. *)
Definition stat_tick (g : Globals) : Globals :=
  if stat_count g =? STAT_REFRESH_RATE then set_stat_count 1 g
  else set_stat_count (int_add (stat_count g) 1) g.

(** Lines 402-422, given the moments of this frame's [result] image. *)
Definition after_moments (m : Moments) (w : World) : World :=
  let gd := locate m (glob w) in
  let w := set_glob (set_detected (snd gd) (fst gd)) w in
  let w := follow_stage w in
  set_glob (stat_tick (glob w)) w.

(** Lines 391-393: [waitKey] has stored the slider positions and returned
    the key, [keyFunctions] has run. *)
Definition after_keys (inp : Input) (w : World) : World :=
  keyFunctions (key inp) (on_ground inp) (move_sliders (sliders inp) w).

(** One iteration that does not leave the loop. *)
Definition cycle {cv : Vision} (inp : Input) (w : World) : World :=
  let w := after_keys inp w in
  after_moments (moments (result_image (segment (frame inp) (cfg (glob w))))) w.

(** The loop over the inputs that arrive; ESC leaves it and the configuration
    is saved. *)
Fixpoint main_loop {cv : Vision} (inputs : list Input) (w : World) : World :=
  match inputs with
  | [] => w
  | inp :: rest =>
      if key inp =? ESC then saveConfigValues (move_sliders (sliders inp) w)
      else main_loop rest (cycle inp w)
  end.

Definition main {cv : Vision} (inputs : list Input) (disk : Files) : World :=
  main_loop inputs (loadConfigValues (mkWorld initial_globals disk [])).

(** * Notions used by the properties *)

(** ** Set-point ranges and the proportional laws *)

Definition within (lo hi v : double) : bool :=
  PrimFloat.leb lo v && PrimFloat.leb v hi.

(** The range the flight command sink expects. *)
Definition normalized (v : double) : bool := within (-1)%float 1%float v.

Definition front_vr (p : Z) : double := proportional p (int_div WIDTH 2) (-200)%float.
Definition front_vz (p : Z) : double := proportional p (int_div HEIGHT 2) (-250)%float.
Definition bottom_vx (p : Z) : double := proportional p (int_div HEIGHT 2) (-400)%float.
Definition bottom_vy (p : Z) : double := proportional p (int_div WIDTH 2) (-800)%float.

(** The horizontal offset of the centroid from the centre of the frame. *)
Definition delta_x (g : Globals) : Z := pos_x g - Z.quot WIDTH 2.

Definition opposite_sign (d : Z) (v : double) : bool :=
  if d <? 0 then PrimFloat.ltb 0%float v
  else if 0 <? d then PrimFloat.ltb v 0%float
  else true.

(** Offset magnitude and yaw-rate magnitude of a column. *)
Definition yaw_entry (p : Z) : Z * double :=
  (Z.abs (p - Z.quot WIDTH 2), PrimFloat.abs (front_vr p)).

Definition yaw_table : list (Z * double) :=
  map yaw_entry (map Z.of_nat (seq 0 640)).

Definition grows (a b : Z * double) : bool :=
  implb (fst a <? fst b) (PrimFloat.ltb (snd a) (snd b)).

(** ** Counting the land commands *)

Definition landings (w : World) : nat := count_occ Command_eq_dec (sent w) Landing.

(** ** A small instance of [Vision]

    An instance for masks made of isolated pixels, where OpenCV's behaviour is
    simple to write down: every set pixel is a one-point contour, found in scan
    order; the area of a contour is the shoelace sum that [contourArea]
    computes (zero for one point); filling a one-point contour paints its
    pixel.  It serves to run the pipeline on concrete frames. *)

Fixpoint row_dots (y x : Z) (r : list Z) : list Contour :=
  match r with
  | [] => []
  | p :: r' => (if p =? 0 then [] else [[(x, y)]]) ++ row_dots y (x + 1) r'
  end.

Fixpoint dots_from (y : Z) (m : Image) : list Contour :=
  match m with
  | [] => []
  | r :: m' => row_dots y 0 r ++ dots_from (y + 1) m'
  end.

Fixpoint shoelace (prev : Z * Z) (c : Contour) (a00 : double) : double :=
  match c with
  | [] => a00
  | p :: c' =>
      shoelace p c'
        (a00 + (double_of_int (fst prev) * double_of_int (snd p)
                - double_of_int (fst p) * double_of_int (snd prev)))%float
  end.

Definition polygon_area (c : Contour) : double :=
  match c with
  | [] => 0%float
  | p :: _ => PrimFloat.abs (shoelace (List.last c p) c 0 * 0.5)%float
  end.

Definition paint (colour : Z) (img : Image) (pt : Z * Z) : Image :=
  alter (fun r => <[Z.to_nat (fst pt) := colour]> r) (Z.to_nat (snd pt)) img.

Definition paint_points (img : Image) (cs : list Contour) (idx colour : Z) : Image :=
  let chosen := if idx <? 0 then cs
                else match nth_error cs (Z.to_nat idx) with
                     | Some c => [c]
                     | None => []
                     end in
  fold_left (fun im c => fold_left (paint colour) c im) chosen img.

Definition dots_vision : Vision :=
  {| morph_close := fun m => m;
     findContours := dots_from 0;
     contourArea := polygon_area;
     drawContours := paint_points |}.

(** ** Concrete inputs *)

(** A frame of two rows and three columns with one white pixel, at column 2
    of row 1. *)
Definition one_dot_frame : HsvImage :=
  [[(0, 0, 0); (0, 0, 0); (0, 0, 0)];
   [(0, 0, 0); (0, 0, 0); (0, 0, 255)]].

(** A frame without any pixel in range. *)
Definition dark_frame : HsvImage :=
  [[(0, 0, 0); (0, 0, 0); (0, 0, 0)];
   [(0, 0, 0); (0, 0, 0); (0, 0, 0)]].

(** Thresholds that accept bright pixels only. *)
Definition bright_config : Config := mkConfig 0 179 0 255 200 255 0 500 320 180.

Definition bright_globals : Globals := set_cfg bright_config initial_globals.

(** The centroid at the centre of the frame, default configuration. *)
Definition centre_globals : Globals := set_pos_y 180 (set_pos_x 320 initial_globals).

Definition world_of (g : Globals) : World := mkWorld g (mkFiles ∅ ∅) [].

(** FRONT camera, a zone 5 pixels wide, the centroid 3 pixels left of the
    centre, and the yaw rate left at -1 by the [d] key. *)
Definition odd_zone_globals : Globals :=
  mkGlobals 1 1 0 0 1 317 180 1000000
            (mkConfig 0 179 0 255 0 255 0 500 5 180)
            (mkSetpoints 0 0 0 (-1)).

(** FRONT camera, default configuration, the centroid on the left edge of the
    frame, all set-points at rest. *)
Definition left_edge_globals : Globals :=
  mkGlobals 1 1 0 0 1 0 180 1000000 default_config zero_setpoints.

(** The ranges of the four set-points that [followObject] maintains. *)
Definition setpoints_bounded (s : Setpoints) : bool :=
  normalized (vx s) && normalized (vy s) && normalized (vz s)
  && within (-1.6)%float (1.6)%float (vr s).

(** The keys that assign a set-point by hand. *)
Definition manual_key (k : Z) : bool :=
  existsb (Z.eqb k) (map chr ["w"; "s"; "a"; "d"; "q"; "e"; "i"; "k"]%char).

(** BOTTOM camera, following and automatic landing switched on, default
    configuration ([max_area] is 500). *)
Definition landing_world : World :=
  world_of (mkGlobals 1 1 1 1 0 320 180 0 default_config zero_setpoints).

(** The moments of a region of 200000 pixels of value 255 around the centre:
    an area of 51000000, above [500 * 100000]. *)
Definition big_blob : Moments :=
  mkMoments 51000000 (51000000 * 320) (51000000 * 180).

(** BOTTOM camera, following and automatic landing on, bright pixels accepted,
    both area bounds at 0. *)
Definition dots_landing_world : World :=
  world_of (mkGlobals 1 1 1 1 0 0 0 0 (mkConfig 0 179 0 255 200 255 0 0 320 180)
                      zero_setpoints).

Definition idle_input (f : HsvImage) : Input := mkInput (-1) [] false f.

(** A FRONT configuration to take round the two toggles. *)
Definition tuned_front_world : World :=
  mkWorld (set_cfg (mkConfig 10 40 50 255 60 255 3 400 300 160) initial_globals)
          (mkFiles ∅ (write_config default_config)) [].

(** * Notions used by the further properties *)

(** ** Images *)

(** Every pixel is an 8-bit value. *)
Definition pixels_8bit (img : Image) : Prop :=
  Forall (Forall (fun p => 0 <= p <= 255)) img.

(** The image has at most [rows] rows of at most [cols] pixels. *)
Definition fits (rows cols : Z) (img : Image) : Prop :=
  Z.of_nat (length img) <= rows
  /\ Forall (fun r => Z.of_nat (length r) <= cols) img.

(** Every set pixel lies in the columns [a..b] of the rows [c..d]. *)
Definition support (a b c d : Z) (img : Image) : Prop :=
  forall x y : nat,
    nth x (nth y img []) 0 <> 0 ->
    a <= Z.of_nat x <= b /\ c <= Z.of_nat y <= d.

(** ** Comparison of doubles

    [sf_key] orders the values that are not NaN the way [SFcompare] does:
    by sign class, then exponent, then mantissa. *)

Definition sf_key (f : spec_float) : option (Z * Z * Z) :=
  match f with
  | S754_nan => None
  | S754_infinity true => Some (-2, 0, 0)
  | S754_infinity false => Some (2, 0, 0)
  | S754_zero _ => Some (0, 0, 0)
  | S754_finite true m e => Some (-1, - e, - Zpos m)
  | S754_finite false m e => Some (1, e, Zpos m)
  end.

Definition key_lt (a b : Z * Z * Z) : Prop :=
  fst (fst a) < fst (fst b)
  \/ (fst (fst a) = fst (fst b)
      /\ (snd (fst a) < snd (fst b) \/ (snd (fst a) = snd (fst b) /\ snd a < snd b))).

(** A double that is not NaN. *)
Definition comparable (v : double) : Prop := sf_key (Prim2SF v) <> None.

(** Executable versions of the three predicates, for concrete images. *)
Definition pixels_8bitb (img : Image) : bool :=
  forallb (forallb (fun p => (0 <=? p) && (p <=? 255))) img.

Definition fitsb (rows cols : Z) (img : Image) : bool :=
  (Z.of_nat (length img) <=? rows)
  && forallb (fun r => Z.of_nat (length r) <=? cols) img.

Fixpoint row_supportb (a b : Z) (inside : bool) (x0 : Z) (r : list Z) : bool :=
  match r with
  | [] => true
  | p :: r' =>
      ((p =? 0) || (inside && (a <=? x0) && (x0 <=? b)))
      && row_supportb a b inside (x0 + 1) r'
  end.

Fixpoint supportb_from (a b c d : Z) (y0 : Z) (img : Image) : bool :=
  match img with
  | [] => true
  | r :: img' =>
      row_supportb a b ((c <=? y0) && (y0 <=? d)) 0 r
      && supportb_from a b c d (y0 + 1) img'
  end.

Definition supportb (a b c d : Z) (img : Image) : bool := supportb_from a b c d 0 img.

(** ** Tables of the proportional laws *)

(** [law] falls from each position of [0, n - 1) to the next. *)
Definition falls_stepwise (law : Z -> double) (n : nat) : bool :=
  forallb (fun p => PrimFloat.ltb (law (p + 1)) (law p)) (map Z.of_nat (seq 0 (n - 1))).

(** [law] has the sign opposite to the offset from [centre] on [0, n). *)
Definition opposes_offset (law : Z -> double) (centre : Z) (n : nat) : bool :=
  forallb (fun p => opposite_sign (p - centre) (law p)) (map Z.of_nat (seq 0 n)).

(** ** Further concrete inputs *)

(** Two centroids outside the default zone on both axes, for each camera. *)
Definition upper_left (cam : Z) : World :=
  world_of (mkGlobals 1 1 0 cam 1 100 50 1000000 default_config zero_setpoints).

Definition lower_right (cam : Z) : World :=
  world_of (mkGlobals 1 1 0 cam 1 500 300 1000000 default_config zero_setpoints).

(** The default configuration with a zone of 5 x 3 pixels. *)
Definition odd_zone_config : Config := mkConfig 0 179 0 255 0 255 0 500 5 3.

Definition zero_config : Config := mkConfig 0 0 0 0 0 0 0 0 0 0.

(** ** Keys, switches and files *)

(** The keys that [keyFunctions] tests. *)
Definition bound_keys : list ascii :=
  [" "; "c"; "w"; "s"; "a"; "d"; "q"; "e"; "i"; "k"; "v"; "t"; "p"; "f"; "l"]%char.

Definition bound_key (k : Z) : bool := existsb (Z.eqb k) (map chr bound_keys).

(** The command a key stands for, if any. *)
Definition key_command (k : Z) (on_ground : bool) : option Command :=
  if k =? chr " " then Some (if on_ground then Takeoff else Landing)
  else if k =? chr "v" then Some SetCalibration
  else if k =? chr "t" then Some SetFlatTrim
  else if k =? chr "p" then Some Emergency
  else None.

(** A switch holds 0 or 1. *)
Definition bit (z : Z) : Prop := z = 0 \/ z = 1.

(** The values the switches and the counter take while the program runs. *)
Definition switches_ok (g : Globals) : Prop :=
  bit (camera g) /\ bit (follow g) /\ bit (auto_land g) /\ bit (detected g)
  /\ 1 <= stat_count g <= STAT_REFRESH_RATE.

(** The configuration file of the active camera. *)
Definition active_file (w : World) : gmap string Z :=
  if camera (glob w) =? 0 then front_camera_config (files w)
  else bottom_camera_config (files w).

(** A world on the BOTTOM camera with a tuned configuration and a stored
    FRONT configuration. *)
Definition tuned_bottom_world : World :=
  mkWorld (set_camera 1 (set_cfg (mkConfig 10 40 50 255 60 255 3 400 300 160) initial_globals))
          (mkFiles (write_config default_config) ∅) [].

(** The files, the configuration and the camera are those of [w]. *)
Definition same_setup (w w' : World) : Prop :=
  files w' = files w /\ cfg (glob w') = cfg (glob w)
  /\ camera (glob w') = camera (glob w).
(** ** Landing episodes *)

(** An iteration in which [followObject] lands: when [waitKey] and the key
    handling are done, the camera is the bottom one, following and automatic
    landing are on, and the area of this frame is above both scaled bounds
    (products that fit an [int]); the key is not ESC, so the iteration is
    run. *)
Definition landing_cycle {cv : Vision} (inp : Input) (w : World) : Prop :=
  key inp <> ESC
  /\ camera (glob (after_keys inp w)) = 1
  /\ truthy (follow (glob (after_keys inp w))) = true
  /\ truthy (auto_land (glob (after_keys inp w))) = true
  /\ in_int (min_area (cfg (glob (after_keys inp w))) * 100000)
  /\ in_int (max_area (cfg (glob (after_keys inp w))) * 100000)
  /\ m00 (moments (result_image (segment (frame inp) (cfg (glob (after_keys inp w))))))
     > min_area (cfg (glob (after_keys inp w))) * 100000
  /\ m00 (moments (result_image (segment (frame inp) (cfg (glob (after_keys inp w))))))
     > max_area (cfg (glob (after_keys inp w))) * 100000.

(** Successive iterations that are all landing iterations, each in the world
    the one before it left. *)
Fixpoint landing_episode {cv : Vision} (inputs : list Input) (w : World) : Prop :=
  match inputs with
  | [] => True
  | inp :: rest => landing_cycle inp w /\ landing_episode rest (cycle inp w)
  end.

(** The land commands of the key handling: the space bar with the drone in
    the air. *)
Definition key_landing (inp : Input) : nat :=
  match key_command (key inp) (on_ground inp) with
  | Some Landing => 1
  | _ => 0
  end.

Fixpoint key_landings (inputs : list Input) : nat :=
  match inputs with
  | [] => 0
  | inp :: rest => key_landing inp + key_landings rest
  end.

(** * Properties *)

(** ** Arithmetic that does not overflow *)

Ltac solve_in_int :=
  unfold in_int, INT_MIN, INT_MAX;
  first [lia | cbn; lia | vm_compute; split; discriminate].

Lemma wrap_in_int (z : Z) : in_int z -> wrap z = z.
Proof.
  unfold in_int, wrap, INT_MIN, INT_MAX. intros H.
  rewrite Z.mod_small by lia. lia.
Qed.

Lemma int_div_2 (a : Z) : in_int a -> int_div a 2 = Z.quot a 2.
Proof.
  intros H. unfold int_div. apply wrap_in_int.
  unfold in_int, INT_MIN, INT_MAX in *.
  Z.to_euclidean_division_equations. lia.
Qed.

(** The area bounds that the trackbars can set (0 to 500) keep every scaled
    threshold of the program representable. *)
Lemma trackbar_area_in_int (a : Z) :
  0 <= a <= 500 ->
  in_int (a * 100000) /\ in_int (a + 10) /\ in_int ((a + 10) * 100000).
Proof. unfold in_int, INT_MIN, INT_MAX. lia. Qed.

(** A property checked on every integer of [0, n). *)
Lemma forallb_below (f : Z -> bool) (n : nat) :
  forallb f (map Z.of_nat (seq 0 n)) = true ->
  forall p, 0 <= p < Z.of_nat n -> f p = true.
Proof.
  intros H p Hp. rewrite forallb_forall in H. apply H.
  apply in_map_iff. exists (Z.to_nat p). split; [lia |].
  apply in_seq. lia.
Qed.

(** ** What [follow_front] and [follow_bottom] leave in each set-point *)

Ltac simpl_globals :=
  cbn [stat_count follow auto_land camera detected pos_x pos_y area cfg vel
       glob files sent vx vy vz vr fst snd
       set_stat_count set_follow set_auto_land set_camera set_detected
       set_pos_x set_pos_y set_area set_cfg set_vel set_glob set_files
       set_vx set_vy set_vz set_vr].

Ltac split_ifs :=
  repeat (simpl_globals;
          match goal with
          | |- context [if ?c then _ else _] =>
              lazymatch c with
              | context [if _ then _ else _] => fail
              | _ => destruct c
              end
          end);
  simpl_globals.

Ltac unfold_follow :=
  unfold follow_front, follow_bottom, send, set_glob, x_outside, y_outside.

Lemma vz_follow_front (g : Globals) :
  vz (vel (follow_front g)) =
  if y_outside g then proportional (pos_y g) (int_div HEIGHT 2) (-250)%float
  else vz (vel g).
Proof. unfold_follow. split_ifs; reflexivity. Qed.

Lemma vr_follow_front (g : Globals) :
  vr (vel (follow_front g)) =
  if x_outside g then proportional (pos_x g) (int_div WIDTH 2) (-200)%float
  else vr (vel g).
Proof. unfold_follow. split_ifs; reflexivity. Qed.

Lemma vx_follow_front (g : Globals) :
  vx (vel (follow_front g)) =
  if area g >? int_mul (int_add (max_area (cfg g)) 10) 100000 then (-0.3)%float
  else if area g <? int_mul (max_area (cfg g)) 100000 then (0.3)%float
  else vx (vel g).
Proof. unfold_follow. split_ifs; reflexivity. Qed.

Lemma vy_follow_front (g : Globals) : vy (vel (follow_front g)) = vy (vel g).
Proof. unfold_follow. split_ifs; reflexivity. Qed.

Lemma vx_follow_bottom (w : World) :
  vx (vel (glob (follow_bottom w))) =
  if y_outside (glob w) then proportional (pos_y (glob w)) (int_div HEIGHT 2) (-400)%float
  else vx (vel (glob w)).
Proof. unfold_follow. split_ifs; reflexivity. Qed.

Lemma vy_follow_bottom (w : World) :
  vy (vel (glob (follow_bottom w))) =
  if x_outside (glob w) then proportional (pos_x (glob w)) (int_div WIDTH 2) (-800)%float
  else vy (vel (glob w)).
Proof. unfold_follow. split_ifs; reflexivity. Qed.

Lemma vz_follow_bottom (w : World) :
  vz (vel (glob (follow_bottom w))) =
  if truthy (auto_land (glob w)) then (-0.1)%float else vz (vel (glob w)).
Proof. unfold_follow. split_ifs; reflexivity. Qed.

Lemma vr_follow_bottom (w : World) :
  vr (vel (glob (follow_bottom w))) = vr (vel (glob w)).
Proof. unfold_follow. split_ifs; reflexivity. Qed.

(** ** The proportional laws on the pixels of the frame

    The frame has 640 columns and 360 rows, so what a proportional law yields
    on a centroid of the frame is settled by evaluating it, in binary64, on
    every column or row. *)

Lemma front_vz_normalized (p : Z) :
  0 <= p < HEIGHT -> normalized (front_vz p) = true.
Proof.
  apply (forallb_below (fun p => normalized (front_vz p)) 360).
  vm_compute. reflexivity.
Qed.

Lemma bottom_vx_normalized (p : Z) :
  0 <= p < HEIGHT -> normalized (bottom_vx p) = true.
Proof.
  apply (forallb_below (fun p => normalized (bottom_vx p)) 360).
  vm_compute. reflexivity.
Qed.

Lemma bottom_vy_normalized (p : Z) :
  0 <= p < WIDTH -> normalized (bottom_vy p) = true.
Proof.
  apply (forallb_below (fun p => normalized (bottom_vy p)) 640).
  vm_compute. reflexivity.
Qed.

Lemma front_vr_within (p : Z) :
  0 <= p < WIDTH -> within (-1.6)%float (1.6)%float (front_vr p) = true.
Proof.
  apply (forallb_below (fun p => within (-1.6)%float (1.6)%float (front_vr p)) 640).
  vm_compute. reflexivity.
Qed.

Lemma front_vr_normalized (p : Z) :
  120 <= p <= 520 -> normalized (front_vr p) = true.
Proof.
  intros Hp.
  assert (H : implb ((120 <=? p) && (p <=? 520)) (normalized (front_vr p)) = true).
  { apply (forallb_below
             (fun p => implb ((120 <=? p) && (p <=? 520)) (normalized (front_vr p))) 640).
    - vm_compute. reflexivity.
    - change (Z.of_nat 640) with 640. lia. }
  replace ((120 <=? p) && (p <=? 520)) with true in H; [exact H |].
  symmetry. apply andb_true_iff. split; apply Z.leb_le; lia.
Qed.

Lemma front_vr_opposite_sign (p : Z) :
  0 <= p < WIDTH -> opposite_sign (p - Z.quot WIDTH 2) (front_vr p) = true.
Proof.
  apply (forallb_below (fun p => opposite_sign (p - Z.quot WIDTH 2) (front_vr p)) 640).
  vm_compute. reflexivity.
Qed.

Lemma yaw_table_grows :
  forallb (fun a => forallb (grows a) yaw_table) yaw_table = true.
Proof. vm_compute. reflexivity. Qed.

Lemma yaw_entry_in_table (p : Z) : 0 <= p < WIDTH -> In (yaw_entry p) yaw_table.
Proof.
  intros Hp. unfold yaw_table. apply in_map, in_map_iff.
  exists (Z.to_nat p). unfold WIDTH in Hp. split; [lia | apply in_seq; lia].
Qed.

Lemma front_vr_magnitude_grows (p q : Z) :
  0 <= p < WIDTH -> 0 <= q < WIDTH ->
  Z.abs (p - Z.quot WIDTH 2) < Z.abs (q - Z.quot WIDTH 2) ->
  PrimFloat.ltb (PrimFloat.abs (front_vr p)) (PrimFloat.abs (front_vr q)) = true.
Proof.
  intros Hp Hq Hlt.
  pose proof yaw_table_grows as H. rewrite forallb_forall in H.
  specialize (H _ (yaw_entry_in_table p Hp)). rewrite forallb_forall in H.
  specialize (H _ (yaw_entry_in_table q Hq)).
  unfold grows, yaw_entry in H. cbn [fst snd] in H.
  apply Z.ltb_lt in Hlt. rewrite Hlt in H. exact H.
Qed.

(** ** Deadzone *)

Lemma x_outside_iff (g : Globals) :
  in_int (WIDTH - deadzone_x (cfg g)) -> in_int (WIDTH + deadzone_x (cfg g)) ->
  x_outside g = true <->
  pos_x g < Z.quot (WIDTH - deadzone_x (cfg g)) 2
  \/ pos_x g > Z.quot (WIDTH + deadzone_x (cfg g)) 2.
Proof.
  intros Hs Ha. unfold x_outside, int_sub, int_add.
  rewrite !wrap_in_int, !int_div_2 by assumption.
  rewrite orb_true_iff, Z.ltb_lt, Z.gtb_ltb, Z.ltb_lt. lia.
Qed.

Lemma y_outside_iff (g : Globals) :
  in_int (HEIGHT - deadzone_y (cfg g)) -> in_int (HEIGHT + deadzone_y (cfg g)) ->
  y_outside g = true <->
  pos_y g < Z.quot (HEIGHT - deadzone_y (cfg g)) 2
  \/ pos_y g > Z.quot (HEIGHT + deadzone_y (cfg g)) 2.
Proof.
  intros Hs Ha. unfold y_outside, int_sub, int_add.
  rewrite !wrap_in_int, !int_div_2 by assumption.
  rewrite orb_true_iff, Z.ltb_lt, Z.gtb_ltb, Z.ltb_lt. lia.
Qed.

(** The centre is inside a zone of non-negative size: the lower threshold is
    at most the centre, the upper one at least. *)
Lemma centre_between (c d : Z) :
  0 <= d -> ~ (c < Z.quot (2 * c - d) 2 \/ c > Z.quot (2 * c + d) 2).
Proof. intros Hd. Z.to_euclidean_division_equations. lia. Qed.

(** C2: the check reports an axis outside exactly when the position is below
    [(W - zone) / 2] or above [(W + zone) / 2] (with [H] for y), and at the
    centre of the frame both axes are inside for every non-negative zone
    size.  The sums and differences are assumed representable. *)
Theorem outsideDeadzone_spec (g : Globals) :
  in_int (WIDTH - deadzone_x (cfg g)) -> in_int (WIDTH + deadzone_x (cfg g)) ->
  in_int (HEIGHT - deadzone_y (cfg g)) -> in_int (HEIGHT + deadzone_y (cfg g)) ->
  (fst (outsideDeadzone g) = true <->
     pos_x g < Z.quot (WIDTH - deadzone_x (cfg g)) 2
     \/ pos_x g > Z.quot (WIDTH + deadzone_x (cfg g)) 2)
  /\ (snd (outsideDeadzone g) = true <->
        pos_y g < Z.quot (HEIGHT - deadzone_y (cfg g)) 2
        \/ pos_y g > Z.quot (HEIGHT + deadzone_y (cfg g)) 2)
  /\ (0 <= deadzone_x (cfg g) -> 0 <= deadzone_y (cfg g) ->
      pos_x g = Z.quot WIDTH 2 -> pos_y g = Z.quot HEIGHT 2 ->
      outsideDeadzone g = (false, false)).
Proof.
  intros Hxs Hxa Hys Hya.
  pose proof (x_outside_iff g Hxs Hxa) as Hx.
  pose proof (y_outside_iff g Hys Hya) as Hy.
  unfold outsideDeadzone. cbn [fst snd].
  split; [exact Hx | split; [exact Hy |]].
  intros Hdx Hdy Hpx Hpy.
  f_equal; apply not_true_is_false; intros Hout.
  - apply Hx in Hout. rewrite Hpx in Hout.
    exact (centre_between 320 _ Hdx Hout).
  - apply Hy in Hout. rewrite Hpy in Hout.
    exact (centre_between 180 _ Hdy Hout).
Qed.

Lemma outsideDeadzone_spec_witness : outsideDeadzone centre_globals = (false, false).
Proof.
  assert (Hxs : in_int (WIDTH - deadzone_x (cfg centre_globals))) by solve_in_int.
  assert (Hxa : in_int (WIDTH + deadzone_x (cfg centre_globals))) by solve_in_int.
  assert (Hys : in_int (HEIGHT - deadzone_y (cfg centre_globals))) by solve_in_int.
  assert (Hya : in_int (HEIGHT + deadzone_y (cfg centre_globals))) by solve_in_int.
  destruct (outsideDeadzone_spec centre_globals Hxs Hxa Hys Hya) as (_ & _ & Hcentre).
  apply Hcentre; cbn; try lia; reflexivity.
Defined.

(** For a zone of even size the rectangle that [drawDeadzone] draws has its
    corners on the thresholds of the check. *)
Lemma drawDeadzone_even (g : Globals) (a b : Z) :
  0 <= a <= 1000000 -> 0 <= b <= 1000000 ->
  deadzone_x (cfg g) = 2 * a -> deadzone_y (cfg g) = 2 * b ->
  drawDeadzone g
  = ((Z.quot (WIDTH - deadzone_x (cfg g)) 2, Z.quot (HEIGHT - deadzone_y (cfg g)) 2),
     (Z.quot (WIDTH + deadzone_x (cfg g)) 2, Z.quot (HEIGHT + deadzone_y (cfg g)) 2)).
Proof.
  intros Ha Hb Hx Hy. unfold drawDeadzone. rewrite Hx, Hy.
  unfold WIDTH, HEIGHT, int_sub, int_add.
  rewrite !int_div_2 by solve_in_int.
  replace (Z.quot (2 * a) 2) with a by (Z.to_euclidean_division_equations; lia).
  replace (Z.quot (2 * b) 2) with b by (Z.to_euclidean_division_equations; lia).
  replace (Z.quot 640 2) with 320 by reflexivity.
  replace (Z.quot 360 2) with 180 by reflexivity.
  rewrite !wrap_in_int by solve_in_int.
  repeat f_equal; Z.to_euclidean_division_equations; lia.
Qed.

(** ** Detection *)

Lemma locate_found (m : Moments) (g : Globals) :
  snd (locate m g) = if m00 m >? int_mul (min_area (cfg g)) 100000 then 1 else 0.
Proof.
  unfold locate. cbn [area set_area cfg].
  destruct (m00 m >? _); reflexivity.
Qed.

Lemma locate_area (m : Moments) (g : Globals) : area (fst (locate m g)) = m00 m.
Proof.
  unfold locate. cbn [area set_area cfg].
  destruct (m00 m >? _); reflexivity.
Qed.

Lemma locate_keeps (m : Moments) (g : Globals) :
  vel (fst (locate m g)) = vel g /\ cfg (fst (locate m g)) = cfg g
  /\ camera (fst (locate m g)) = camera g /\ follow (fst (locate m g)) = follow g
  /\ auto_land (fst (locate m g)) = auto_land g.
Proof.
  unfold locate. cbn [area set_area cfg].
  destruct (m00 m >? _); repeat split; reflexivity.
Qed.

(** C1: [detectObject] returns 1 exactly when the zeroth moment of the drawn
    region exceeds [min_area * 100000], returns 0 otherwise, and stores that
    moment in [area] in both cases. *)
Theorem detectObject_found_iff {cv : Vision} (img_hsv : HsvImage) (g : Globals) :
  in_int (min_area (cfg g) * 100000) ->
  (snd (detectObject img_hsv g) = 1 <->
     m00 (moments (result_image (segment img_hsv (cfg g)))) > min_area (cfg g) * 100000)
  /\ (snd (detectObject img_hsv g) = 0 <->
        m00 (moments (result_image (segment img_hsv (cfg g)))) <= min_area (cfg g) * 100000)
  /\ area (fst (detectObject img_hsv g))
     = m00 (moments (result_image (segment img_hsv (cfg g)))).
Proof.
  intros Hmin. unfold detectObject.
  rewrite locate_found, locate_area.
  unfold int_mul. rewrite (wrap_in_int _ Hmin). rewrite Z.gtb_ltb.
  destruct (Z.ltb_spec (min_area (cfg g) * 100000)
                       (m00 (moments (result_image (segment img_hsv (cfg g)))))) as [Hlt | Hge].
  - repeat split; intros; try lia; discriminate.
  - repeat split; intros; try lia; discriminate.
Qed.

Lemma detectObject_found_iff_witness :
  in_int (min_area (cfg bright_globals) * 100000)
  /\ snd (detectObject (cv := dots_vision) one_dot_frame bright_globals) = 1
  /\ area (fst (detectObject (cv := dots_vision) one_dot_frame bright_globals)) = 255.
Proof.
  assert (H : in_int (min_area (cfg bright_globals) * 100000)) by solve_in_int.
  split; [exact H |].
  destruct (detectObject_found_iff (cv := dots_vision) one_dot_frame bright_globals H)
    as (Hfound & _ & Harea).
  split.
  - apply Hfound. vm_compute. reflexivity.
  - rewrite Harea. vm_compute. reflexivity.
Defined.

(** The moments of an image without a set pixel are zero. *)
Lemma row_m00_zero (n : nat) : row_m00 (repeat 0 n) = 0.
Proof. induction n as [| n IH]; cbn; [reflexivity | exact IH]. Qed.

Lemma m00_blank_from (rows cols : nat) (y : Z) :
  m00 (moments_from y (repeat (repeat 0 cols) rows)) = 0.
Proof.
  revert y. induction rows as [| rows IH]; intros y; cbn [repeat moments_from m00].
  - reflexivity.
  - rewrite row_m00_zero, IH. reflexivity.
Qed.

Lemma m00_blank (rows cols : Z) : m00 (moments (blank rows cols)) = 0.
Proof. apply m00_blank_from. Qed.

(** C8: when the mask handed to the contour search has no foreground pixel,
    no contour is selected ([largest_contour_id] stays -1) and [detectObject]
    returns 0, for a non-negative [min_area]. *)
Theorem empty_mask_not_found {cv : Vision} {laws : VisionLaws cv}
        (img_hsv : HsvImage) (g : Globals) :
  no_foreground (segment img_hsv (cfg g)) = true ->
  0 <= min_area (cfg g) -> in_int (min_area (cfg g) * 100000) ->
  largest_contour_id (findContours (segment img_hsv (cfg g))) = -1
  /\ snd (detectObject img_hsv g) = 0
  /\ area (fst (detectObject img_hsv g)) = 0.
Proof.
  intros Hmask Hmin Hint.
  pose proof (findContours_background _ Hmask) as Hnone.
  assert (Hm : m00 (moments (result_image (segment img_hsv (cfg g)))) = 0).
  { unfold result_image. rewrite Hnone, drawContours_nil. apply m00_blank. }
  split; [rewrite Hnone; reflexivity |].
  unfold detectObject. rewrite locate_found, locate_area, Hm.
  unfold int_mul. rewrite (wrap_in_int _ Hint).
  split; [| reflexivity].
  rewrite Z.gtb_ltb. destruct (Z.ltb_spec (min_area (cfg g) * 100000) 0); [lia | reflexivity].
Qed.

Lemma row_dots_background (y x : Z) (r : list Z) :
  forallb (Z.eqb 0) r = true -> row_dots y x r = [].
Proof.
  revert x. induction r as [| p r IH]; intros x H; [reflexivity |].
  cbn [forallb] in H. apply andb_true_iff in H. destruct H as [Hp Hr].
  apply Z.eqb_eq in Hp. subst p. cbn [row_dots]. apply IH, Hr.
Qed.

Lemma dots_from_background (y : Z) (m : Image) :
  no_foreground m = true -> dots_from y m = [].
Proof.
  revert y. induction m as [| r m IH]; intros y H; [reflexivity |].
  unfold no_foreground in H. cbn [forallb] in H.
  apply andb_true_iff in H. destruct H as [Hr Hm]. cbn [dots_from].
  rewrite (row_dots_background _ _ _ Hr), (IH _ Hm). reflexivity.
Qed.

#[global] Instance dots_vision_laws : VisionLaws dots_vision.
Proof.
  split.
  - intros m H. apply dots_from_background, H.
  - intros img idx colour. cbn. unfold paint_points.
    destruct (idx <? 0); [reflexivity |].
    destruct (Z.to_nat idx); reflexivity.
Qed.

Lemma empty_mask_not_found_witness :
  no_foreground (segment (cv := dots_vision) dark_frame (cfg bright_globals)) = true
  /\ largest_contour_id (cv := dots_vision)
       (@findContours dots_vision
          (segment (cv := dots_vision) dark_frame (cfg bright_globals))) = -1
  /\ snd (detectObject (cv := dots_vision) dark_frame bright_globals) = 0
  /\ area (fst (detectObject (cv := dots_vision) dark_frame bright_globals)) = 0.
Proof.
  split; [vm_compute; reflexivity |].
  apply (empty_mask_not_found (cv := dots_vision) dark_frame bright_globals).
  - vm_compute. reflexivity.
  - cbn. lia.
  - solve_in_int.
Defined.

(** ** The FRONT and BOTTOM control laws *)

Lemma followObject_front (w : World) :
  camera (glob w) = 0 -> followObject w = set_glob (follow_front (glob w)) w.
Proof. intros H. unfold followObject. rewrite H. reflexivity. Qed.

Lemma followObject_bottom (w : World) :
  camera (glob w) = 1 -> followObject w = follow_bottom w.
Proof. intros H. unfold followObject. rewrite H. reflexivity. Qed.

(** C4: in FRONT mode the forward set-point becomes 0.3 when the area is
    below [max_area * 100000], -0.3 when it is above
    [(max_area + 10) * 100000], and keeps its value in between. *)
Theorem front_forward_setpoint (w : World) :
  camera (glob w) = 0 ->
  in_int (max_area (cfg (glob w)) * 100000) ->
  in_int (max_area (cfg (glob w)) + 10) ->
  in_int ((max_area (cfg (glob w)) + 10) * 100000) ->
  (area (glob w) < max_area (cfg (glob w)) * 100000 ->
     vx (vel (glob (followObject w))) = (0.3)%float)
  /\ (area (glob w) > (max_area (cfg (glob w)) + 10) * 100000 ->
        vx (vel (glob (followObject w))) = (-0.3)%float)
  /\ (max_area (cfg (glob w)) * 100000 <= area (glob w)
        <= (max_area (cfg (glob w)) + 10) * 100000 ->
      vx (vel (glob (followObject w))) = vx (vel (glob w))).
Proof.
  intros Hcam H1 H2 H3.
  rewrite (followObject_front w Hcam). cbn [glob set_glob].
  rewrite vx_follow_front. unfold int_mul, int_add.
  rewrite (wrap_in_int _ H2), (wrap_in_int _ H1), (wrap_in_int _ H3).
  rewrite Z.gtb_ltb.
  destruct (Z.ltb_spec ((max_area (cfg (glob w)) + 10) * 100000) (area (glob w)));
    destruct (Z.ltb_spec (area (glob w)) (max_area (cfg (glob w)) * 100000));
    repeat split; intros; try reflexivity; lia.
Qed.

Lemma front_forward_setpoint_witness :
  vx (vel (glob (followObject (world_of left_edge_globals)))) = (0.3)%float.
Proof.
  assert (H1 : in_int (max_area (cfg (glob (world_of left_edge_globals))) * 100000))
    by solve_in_int.
  assert (H2 : in_int (max_area (cfg (glob (world_of left_edge_globals))) + 10))
    by solve_in_int.
  assert (H3 : in_int ((max_area (cfg (glob (world_of left_edge_globals))) + 10) * 100000))
    by solve_in_int.
  destruct (front_forward_setpoint (world_of left_edge_globals) eq_refl H1 H2 H3)
    as (Hlow & _ & _).
  apply Hlow. vm_compute. reflexivity.
Defined.

(** C10: the FRONT branch leaves the left/right set-point [vy] as it was, and
    the BOTTOM branch leaves the yaw rate [vr] as it was. *)
Theorem followObject_frame (w : World) :
  (camera (glob w) = 0 -> vy (vel (glob (followObject w))) = vy (vel (glob w)))
  /\ (camera (glob w) = 1 -> vr (vel (glob (followObject w))) = vr (vel (glob w))).
Proof.
  split; intros Hcam.
  - rewrite (followObject_front w Hcam). apply vy_follow_front.
  - rewrite (followObject_bottom w Hcam). apply vr_follow_bottom.
Qed.

Lemma followObject_frame_witness :
  vy (vel (glob (followObject (world_of left_edge_globals))))
  = vy (vel (glob (world_of left_edge_globals)))
  /\ vr (vel (glob (followObject (world_of (set_camera 1 left_edge_globals)))))
     = vr (vel (glob (world_of (set_camera 1 left_edge_globals)))).
Proof.
  split.
  - apply (proj1 (followObject_frame (world_of left_edge_globals))). reflexivity.
  - apply (proj2 (followObject_frame (world_of (set_camera 1 left_edge_globals)))).
    reflexivity.
Defined.

(** *** Yaw rate *)

Lemma vr_followObject_front (w : World) :
  camera (glob w) = 0 ->
  vr (vel (glob (followObject w)))
  = if x_outside (glob w) then front_vr (pos_x (glob w)) else vr (vel (glob w)).
Proof.
  intros Hcam. rewrite (followObject_front w Hcam). apply vr_follow_front.
Qed.

(** Which columns of the frame the check reports outside, for a zone of
    non-negative width [d]: those more than [d / 2] (rounded down) right of
    the centre and those more than [d / 2] rounded up left of it. *)
Lemma x_outside_in_frame (g : Globals) :
  0 <= pos_x g < WIDTH ->
  0 <= deadzone_x (cfg g) -> in_int (WIDTH + deadzone_x (cfg g)) ->
  x_outside g = true <->
  delta_x g > deadzone_x (cfg g) / 2 \/ - delta_x g > (deadzone_x (cfg g) + 1) / 2.
Proof.
  intros Hp Hd Hi.
  rewrite x_outside_iff; [| unfold in_int, INT_MIN, INT_MAX, WIDTH in *; lia | exact Hi].
  unfold delta_x, WIDTH in *. Z.to_euclidean_division_equations. lia.
Qed.

(** Over the frame the subtraction of the centre does not wrap, so each law
    is the exact offset divided by its gain. *)
Lemma proportional_exact (pos centre : Z) (gain : double) :
  in_int (pos - centre) ->
  proportional pos centre gain = PrimFloat.div (double_of_int (pos - centre)) gain.
Proof.
  intros Hi. unfold proportional, int_sub. rewrite (wrap_in_int _ Hi). reflexivity.
Qed.

Lemma front_vr_exact (p : Z) :
  0 <= p < WIDTH -> front_vr p = PrimFloat.div (double_of_int (p - 320)) (-200)%float.
Proof.
  intros Hp. unfold front_vr. change (int_div WIDTH 2) with 320.
  apply proportional_exact. unfold in_int, INT_MIN, INT_MAX, WIDTH in *. lia.
Qed.

Lemma front_vz_exact (p : Z) :
  0 <= p < HEIGHT -> front_vz p = PrimFloat.div (double_of_int (p - 180)) (-250)%float.
Proof.
  intros Hp. unfold front_vz. change (int_div HEIGHT 2) with 180.
  apply proportional_exact. unfold in_int, INT_MIN, INT_MAX, HEIGHT in *. lia.
Qed.

Lemma bottom_vx_exact (p : Z) :
  0 <= p < HEIGHT -> bottom_vx p = PrimFloat.div (double_of_int (p - 180)) (-400)%float.
Proof.
  intros Hp. unfold bottom_vx. change (int_div HEIGHT 2) with 180.
  apply proportional_exact. unfold in_int, INT_MIN, INT_MAX, HEIGHT in *. lia.
Qed.

Lemma bottom_vy_exact (p : Z) :
  0 <= p < WIDTH -> bottom_vy p = PrimFloat.div (double_of_int (p - 320)) (-800)%float.
Proof.
  intros Hp. unfold bottom_vy. change (int_div WIDTH 2) with 320.
  apply proportional_exact. unfold in_int, INT_MIN, INT_MAX, WIDTH in *. lia.
Qed.

(** C3, as the code has it: in FRONT mode, for a centroid of the frame that
    the deadzone check reports outside on x, the yaw rate is
    [(pos_x - 320) / -200.0], of sign opposite to the offset and of magnitude
    strictly increasing with the magnitude of the offset; for a centroid
    reported inside, the yaw rate keeps its value.  For a zone of width [d]
    the check reports outside the offsets above [d / 2] rounded down on the
    right and above [d / 2] rounded up on the left. *)
Theorem front_yaw_setpoint (w w' : World) :
  camera (glob w) = 0 -> camera (glob w') = 0 ->
  0 <= pos_x (glob w) < WIDTH -> 0 <= pos_x (glob w') < WIDTH ->
  (x_outside (glob w) = true ->
     vr (vel (glob (followObject w)))
     = PrimFloat.div (double_of_int (pos_x (glob w) - 320)) (-200)%float)
  /\ (x_outside (glob w) = true ->
     (0 < delta_x (glob w) ->
        PrimFloat.ltb (vr (vel (glob (followObject w)))) 0%float = true)
     /\ (delta_x (glob w) < 0 ->
           PrimFloat.ltb 0%float (vr (vel (glob (followObject w)))) = true))
  /\ (x_outside (glob w) = true -> x_outside (glob w') = true ->
      Z.abs (delta_x (glob w)) < Z.abs (delta_x (glob w')) ->
      PrimFloat.ltb (PrimFloat.abs (vr (vel (glob (followObject w)))))
                    (PrimFloat.abs (vr (vel (glob (followObject w'))))) = true)
  /\ (x_outside (glob w) = false ->
      vr (vel (glob (followObject w))) = vr (vel (glob w)))
  /\ (0 <= deadzone_x (cfg (glob w)) -> in_int (WIDTH + deadzone_x (cfg (glob w))) ->
      (x_outside (glob w) = true <->
         delta_x (glob w) > deadzone_x (cfg (glob w)) / 2
         \/ - delta_x (glob w) > (deadzone_x (cfg (glob w)) + 1) / 2)).
Proof.
  intros Hcam Hcam' Hp Hp'.
  rewrite (vr_followObject_front w Hcam), (vr_followObject_front w' Hcam').
  split; [| split; [| split; [| split]]].
  - intros Hout. rewrite Hout. apply front_vr_exact, Hp.
  - intros Hout. rewrite Hout.
    pose proof (front_vr_opposite_sign _ Hp) as Hs.
    unfold opposite_sign in Hs. fold (delta_x (glob w)) in Hs.
    split; intros Hd.
    + destruct (Z.ltb_spec (delta_x (glob w)) 0); [lia |].
      destruct (Z.ltb_spec 0 (delta_x (glob w))); [exact Hs | lia].
    + destruct (Z.ltb_spec (delta_x (glob w)) 0); [exact Hs | lia].
  - intros Hout Hout' Hlt. rewrite Hout, Hout'.
    apply front_vr_magnitude_grows; assumption.
  - intros Hin. rewrite Hin. reflexivity.
  - intros Hd Hi. apply x_outside_in_frame; assumption.
Qed.

Lemma front_yaw_setpoint_witness :
  vr (vel (glob (followObject (world_of (set_pos_x 100 left_edge_globals)))))
  = PrimFloat.div (double_of_int (100 - 320)) (-200)%float
  /\ PrimFloat.ltb
    (PrimFloat.abs (vr (vel (glob (followObject (world_of (set_pos_x 100 left_edge_globals)))))))
    (PrimFloat.abs (vr (vel (glob (followObject (world_of left_edge_globals)))))) = true.
Proof.
  assert (Hp : 0 <= pos_x (glob (world_of (set_pos_x 100 left_edge_globals))) < WIDTH)
    by (vm_compute; split; [discriminate | reflexivity]).
  assert (Hp' : 0 <= pos_x (glob (world_of left_edge_globals)) < WIDTH)
    by (vm_compute; split; [discriminate | reflexivity]).
  destruct (front_yaw_setpoint (world_of (set_pos_x 100 left_edge_globals))
                               (world_of left_edge_globals)
                               eq_refl eq_refl Hp Hp') as (Hval & _ & Hgrow & _).
  split.
  - apply Hval. vm_compute. reflexivity.
  - apply Hgrow; vm_compute; reflexivity.
Defined.

(** C3 as stated fails for a zone of odd width: with a zone 5 pixels wide
    and the centroid 3 pixels left of the centre, the offset exceeds half
    the width, yet [317 < (640 - 5) / 2] is false, the check reports x inside
    and the yaw rate stays at -1, the sign of the offset. *)
Lemma odd_zone_yaw_not_opposite :
  camera odd_zone_globals = 0
  /\ delta_x odd_zone_globals = -3
  /\ 2 * Z.abs (delta_x odd_zone_globals) > deadzone_x (cfg odd_zone_globals)
  /\ Z.abs (delta_x odd_zone_globals) > Z.quot (deadzone_x (cfg odd_zone_globals)) 2
  /\ vr (vel (glob (followObject (world_of odd_zone_globals)))) = (-1)%float
  /\ PrimFloat.ltb 0%float (vr (vel (glob (followObject (world_of odd_zone_globals))))) = false.
Proof. repeat split; vm_compute; reflexivity. Qed.

(** A centroid at (400, 180) with the default zone of 320 x 180 is inside on
    both axes: FRONT mode leaves the yaw rate and the vertical set-point as
    they are and approaches. *)
Example centroid_inside_zone :
  vel (glob (followObject (world_of (set_pos_x 400 centre_globals))))
  = mkSetpoints (0.3)%float 0%float 0%float 0%float.
Proof. reflexivity. Qed.

(** *** Ranges of the set-points *)

Lemma vx_followObject_bounded (w : World) :
  0 <= pos_y (glob w) < HEIGHT ->
  normalized (vx (vel (glob w))) = true ->
  normalized (vx (vel (glob (followObject w)))) = true.
Proof.
  intros Hy Hv. unfold followObject.
  destruct (camera (glob w) =? 0); [| destruct (camera (glob w) =? 1)].
  - cbn [glob set_glob]. rewrite vx_follow_front.
    destruct (_ >? _); [reflexivity |]. destruct (_ <? _); [reflexivity | exact Hv].
  - rewrite vx_follow_bottom.
    destruct (y_outside (glob w)); [apply bottom_vx_normalized, Hy | exact Hv].
  - exact Hv.
Qed.

Lemma vy_followObject_bounded (w : World) :
  0 <= pos_x (glob w) < WIDTH ->
  normalized (vy (vel (glob w))) = true ->
  normalized (vy (vel (glob (followObject w)))) = true.
Proof.
  intros Hx Hv. unfold followObject.
  destruct (camera (glob w) =? 0); [| destruct (camera (glob w) =? 1)].
  - cbn [glob set_glob]. rewrite vy_follow_front. exact Hv.
  - rewrite vy_follow_bottom.
    destruct (x_outside (glob w)); [apply bottom_vy_normalized, Hx | exact Hv].
  - exact Hv.
Qed.

Lemma vz_followObject_bounded (w : World) :
  0 <= pos_y (glob w) < HEIGHT ->
  normalized (vz (vel (glob w))) = true ->
  normalized (vz (vel (glob (followObject w)))) = true.
Proof.
  intros Hy Hv. unfold followObject.
  destruct (camera (glob w) =? 0); [| destruct (camera (glob w) =? 1)].
  - cbn [glob set_glob]. rewrite vz_follow_front.
    destruct (y_outside (glob w)); [apply front_vz_normalized, Hy | exact Hv].
  - rewrite vz_follow_bottom.
    destruct (truthy _); [reflexivity | exact Hv].
  - exact Hv.
Qed.

Lemma vr_followObject_cases (w : World) :
  vr (vel (glob (followObject w))) = vr (vel (glob w))
  \/ vr (vel (glob (followObject w))) = front_vr (pos_x (glob w)).
Proof.
  unfold followObject.
  destruct (camera (glob w) =? 0); [| destruct (camera (glob w) =? 1)].
  - cbn [glob set_glob]. rewrite vr_follow_front.
    destruct (x_outside (glob w)); [right | left]; reflexivity.
  - left. apply vr_follow_bottom.
  - left. reflexivity.
Qed.

(** C6, as the code has it: for a centroid of the frame and any
    configuration, [followObject] keeps the forward/back, left/right and
    up/down set-points within [-1, 1] and the yaw rate within [-1.6, 1.6]
    (what [(pos_x - 320) / -200.0] reaches on the frame); the yaw rate stays
    within [-1, 1] for the columns 120 to 520.  A set-point that the call does
    not assign keeps its value, so the ranges are those of the values on
    entry too. *)
Theorem followObject_setpoint_bounds (w : World) :
  0 <= pos_x (glob w) < WIDTH -> 0 <= pos_y (glob w) < HEIGHT ->
  setpoints_bounded (vel (glob w)) = true ->
  setpoints_bounded (vel (glob (followObject w))) = true
  /\ (normalized (vr (vel (glob w))) = true -> 120 <= pos_x (glob w) <= 520 ->
      normalized (vr (vel (glob (followObject w)))) = true).
Proof.
  intros Hx Hy Hb. unfold setpoints_bounded in *.
  apply andb_true_iff in Hb. destruct Hb as [Hb Hvr].
  apply andb_true_iff in Hb. destruct Hb as [Hb Hvz].
  apply andb_true_iff in Hb. destruct Hb as [Hvx Hvy].
  split.
  - rewrite (vx_followObject_bounded w Hy Hvx), (vy_followObject_bounded w Hx Hvy),
      (vz_followObject_bounded w Hy Hvz).
    destruct (vr_followObject_cases w) as [-> | ->];
      [exact Hvr | apply front_vr_within, Hx].
  - intros Hn Hmid.
    destruct (vr_followObject_cases w) as [-> | ->];
      [exact Hn | apply front_vr_normalized, Hmid].
Qed.

Lemma followObject_setpoint_bounds_witness :
  setpoints_bounded (vel (glob (followObject (world_of left_edge_globals)))) = true.
Proof.
  apply (followObject_setpoint_bounds (world_of left_edge_globals));
    vm_compute; try reflexivity; split; (discriminate || reflexivity).
Defined.

(** C6 as stated fails: in FRONT mode with the default configuration and the
    centroid on the left edge of the frame, the yaw rate becomes
    [-320 / -200.0], which is above 1. *)
Lemma left_edge_yaw_above_one :
  0 <= pos_x left_edge_globals < WIDTH
  /\ 0 <= pos_y left_edge_globals < HEIGHT
  /\ vr (vel (glob (followObject (world_of left_edge_globals)))) = (1.6)%float
  /\ normalized (vr (vel (glob (followObject (world_of left_edge_globals))))) = false.
Proof.
  split; [| split; [| split]]; vm_compute;
    try reflexivity; split; (discriminate || reflexivity).
Qed.

(** The keys keep the set-points in range: they assign 1 or -1. *)
Lemma on_key_bounded (k : Z) (c : ascii) (f : World -> World) (w : World) :
  (forall w, setpoints_bounded (vel (glob w)) = true ->
             setpoints_bounded (vel (glob (f w))) = true) ->
  setpoints_bounded (vel (glob w)) = true ->
  setpoints_bounded (vel (glob (on_key k c f w))) = true.
Proof. intros Hf Hw. unfold on_key. destruct (k =? chr c); auto. Qed.

Lemma assign_bounded (f : Setpoints -> Setpoints) (w : World) :
  (forall s, setpoints_bounded s = true -> setpoints_bounded (f s) = true) ->
  setpoints_bounded (vel (glob w)) = true ->
  setpoints_bounded (vel (glob (assign_vel f w))) = true.
Proof. intros Hf Hw. unfold assign_vel. cbn. auto. Qed.

Lemma saveConfigValues_glob (w : World) : glob (saveConfigValues w) = glob w.
Proof.
  unfold saveConfigValues.
  destruct (camera (glob w) =? 0); [| destruct (camera (glob w) =? 1)]; reflexivity.
Qed.

Lemma toggle_vel (w : World) : vel (glob (toggle w)) = vel (glob w).
Proof.
  unfold toggle, loadConfigValues. cbn [glob set_glob vel set_cfg set_camera].
  rewrite saveConfigValues_glob. reflexivity.
Qed.

Lemma set_bounded (s : Setpoints) (v : double) :
  setpoints_bounded s = true -> normalized v = true ->
  within (-1.6)%float (1.6)%float v = true ->
  setpoints_bounded (set_vx v s) = true /\ setpoints_bounded (set_vy v s) = true
  /\ setpoints_bounded (set_vz v s) = true /\ setpoints_bounded (set_vr v s) = true.
Proof.
  unfold setpoints_bounded. cbn [set_vx set_vy set_vz set_vr vx vy vz vr].
  rewrite !andb_true_iff. tauto.
Qed.

Lemma keyFunctions_bounded (k : Z) (og : bool) (w : World) :
  setpoints_bounded (vel (glob w)) = true ->
  setpoints_bounded (vel (glob (keyFunctions k og w))) = true.
Proof.
  intros Hw. unfold keyFunctions.
  repeat (apply on_key_bounded; [clear; intros w Hw |]); try exact Hw;
    try (destruct og; exact Hw);
    try (rewrite toggle_vel; exact Hw);
    apply assign_bounded; try exact Hw; clear; intros s Hs.
  all: first [ apply (set_bounded s 1%float Hs eq_refl eq_refl)
             | apply (set_bounded s (-1)%float Hs eq_refl eq_refl) ].
Qed.

(** ** The loop *)

Lemma move_sliders_cfg (moves : list (Trackbar * Z)) (w : World) :
  cfg (glob (move_sliders moves w)) = move_config moves (cfg (glob w)).
Proof.
  revert w. induction moves as [| move rest IH]; intros w; [reflexivity |].
  cbn [move_sliders]. rewrite IH. reflexivity.
Qed.

(** Slider moves write configuration values only. *)
Lemma move_sliders_keeps (moves : list (Trackbar * Z)) (w : World) :
  files (move_sliders moves w) = files w
  /\ sent (move_sliders moves w) = sent w
  /\ vel (glob (move_sliders moves w)) = vel (glob w)
  /\ camera (glob (move_sliders moves w)) = camera (glob w)
  /\ follow (glob (move_sliders moves w)) = follow (glob w)
  /\ auto_land (glob (move_sliders moves w)) = auto_land (glob w)
  /\ detected (glob (move_sliders moves w)) = detected (glob w)
  /\ stat_count (glob (move_sliders moves w)) = stat_count (glob w).
Proof.
  revert w. induction moves as [| move rest IH]; intros w; [repeat split |].
  cbn [move_sliders].
  destruct (IH (set_glob (set_cfg (set_trackbar move (cfg (glob w))) (glob w)) w))
    as (H1 & H2 & H3 & H4 & H5 & H6 & H7 & H8).
  rewrite H1, H2, H3, H4, H5, H6, H7, H8. repeat split.
Qed.

Lemma toggle_sent (w : World) : sent (toggle w) = sent w.
Proof.
  unfold toggle, loadConfigValues, saveConfigValues. simpl_globals.
  destruct (camera (glob w) =? 0); [| destruct (camera (glob w) =? 1)]; reflexivity.
Qed.

(** The set-points and the commands after the key handling depend on the
    world before it through its set-points and commands only, so not on
    what the sliders stored. *)
Lemma on_key_flight (k : Z) (c : ascii) (f : World -> World) (w1 w2 : World) :
  (forall a b, vel (glob a) = vel (glob b) /\ sent a = sent b ->
               vel (glob (f a)) = vel (glob (f b)) /\ sent (f a) = sent (f b)) ->
  vel (glob w1) = vel (glob w2) /\ sent w1 = sent w2 ->
  vel (glob (on_key k c f w1)) = vel (glob (on_key k c f w2))
  /\ sent (on_key k c f w1) = sent (on_key k c f w2).
Proof. intros Hf Hw. unfold on_key. destruct (k =? chr c); auto. Qed.

Lemma keyFunctions_flight (k : Z) (og : bool) (w1 w2 : World) :
  vel (glob w1) = vel (glob w2) /\ sent w1 = sent w2 ->
  vel (glob (keyFunctions k og w1)) = vel (glob (keyFunctions k og w2))
  /\ sent (keyFunctions k og w1) = sent (keyFunctions k og w2).
Proof.
  intros Hw. unfold keyFunctions.
  repeat (apply on_key_flight; [clear; intros a b [Hv Hs] |]); try exact Hw;
    rewrite ?toggle_vel, ?toggle_sent; try (destruct og);
    unfold assign_vel, send; cbn [glob set_glob vel set_vel sent set_follow set_auto_land];
    rewrite Hv, Hs; split; reflexivity.
Qed.

Lemma after_keys_flight (inp : Input) (w : World) :
  vel (glob (after_keys inp w)) = vel (glob (keyFunctions (key inp) (on_ground inp) w))
  /\ sent (after_keys inp w) = sent (keyFunctions (key inp) (on_ground inp) w).
Proof.
  unfold after_keys. apply keyFunctions_flight.
  destruct (move_sliders_keeps (sliders inp) w) as (_ & Hs & Hv & _). auto.
Qed.

Lemma on_key_other (k : Z) (c : ascii) (f : World -> World) (w : World) :
  (k =? chr c) = false -> on_key k c f w = w.
Proof. intros H. unfold on_key. rewrite H. reflexivity. Qed.

Lemma on_key_vel (k : Z) (c : ascii) (f : World -> World) (w : World) :
  (forall w, vel (glob (f w)) = vel (glob w)) ->
  vel (glob (on_key k c f w)) = vel (glob w).
Proof. intros Hf. unfold on_key. destruct (k =? chr c); [apply Hf | reflexivity]. Qed.

(** Only the eight flight keys assign a set-point. *)
Lemma keyFunctions_vel (k : Z) (og : bool) (w : World) :
  manual_key k = false -> vel (glob (keyFunctions k og w)) = vel (glob w).
Proof.
  unfold manual_key. cbn [existsb map]. rewrite !orb_false_iff.
  intros (Hw & Hs & Ha & Hd & Hq & He & Hi & Hk & _).
  unfold keyFunctions.
  rewrite (on_key_vel k "l"), (on_key_vel k "f"), (on_key_vel k "p"),
    (on_key_vel k "t"), (on_key_vel k "v") by reflexivity.
  rewrite (on_key_other k "k"), (on_key_other k "i"), (on_key_other k "e"),
    (on_key_other k "q"), (on_key_other k "d"), (on_key_other k "a"),
    (on_key_other k "s"), (on_key_other k "w") by assumption.
  rewrite (on_key_vel k "c") by apply toggle_vel.
  apply on_key_vel. intros w0. destruct og; reflexivity.
Qed.

Lemma stat_tick_keeps (g : Globals) :
  vel (stat_tick g) = vel g /\ detected (stat_tick g) = detected g
  /\ cfg (stat_tick g) = cfg g /\ camera (stat_tick g) = camera g
  /\ follow (stat_tick g) = follow g /\ auto_land (stat_tick g) = auto_land g.
Proof.
  unfold stat_tick. destruct (stat_count g =? STAT_REFRESH_RATE); repeat split.
Qed.

(** Without a detection the stage after [detectObject] is the statistics
    counter alone. *)
Lemma after_moments_not_found (m : Moments) (w : World) :
  snd (locate m (glob w)) = 0 ->
  after_moments m w
  = set_glob (stat_tick (set_detected 0 (fst (locate m (glob w))))) w.
Proof.
  intros H. unfold after_moments. rewrite H. unfold follow_stage.
  cbn [glob set_glob detected set_detected truthy]. reflexivity.
Qed.

(** C7: in an iteration whose detection returns 0, [followObject] is not
    run: the iteration is [waitKey] with the key handling, the detection and
    the statistics counter; the four set-points are those left by the key
    handling (the previous ones unless a flight key was pressed), and no
    command is sent after the key handling; neither depends on what the
    sliders stored during [waitKey]. *)
Theorem not_found_keeps_setpoints {cv : Vision} (inp : Input) (w : World) :
  snd (detectObject (frame inp) (glob (after_keys inp w))) = 0 ->
  cycle inp w
  = set_glob
      (stat_tick
         (set_detected 0
            (fst (detectObject (frame inp)
                    (glob (after_keys inp w))))))
      (after_keys inp w)
  /\ detected (glob (cycle inp w)) = 0
  /\ vel (glob (cycle inp w)) = vel (glob (after_keys inp w))
  /\ sent (cycle inp w) = sent (after_keys inp w)
  /\ (manual_key (key inp) = false -> vel (glob (cycle inp w)) = vel (glob w))
  /\ vel (glob (cycle inp w)) = vel (glob (keyFunctions (key inp) (on_ground inp) w))
  /\ sent (cycle inp w) = sent (keyFunctions (key inp) (on_ground inp) w).
Proof.
  intros H. destruct (after_keys_flight inp w) as [Hkv Hks].
  rewrite <- Hkv, <- Hks. unfold cycle, detectObject in *.
  rewrite (after_moments_not_found _ _ H). cbn [glob set_glob sent].
  destruct (stat_tick_keeps
              (set_detected 0
                 (fst (locate
                         (moments
                            (result_image
                               (segment (frame inp)
                                  (cfg (glob (after_keys inp w))))))
                         (glob (after_keys inp w))))))
    as (Hv & Hd & _).
  rewrite Hv, Hd. cbn [vel detected set_detected].
  destruct (locate_keeps
              (moments
                 (result_image
                    (segment (frame inp)
                       (cfg (glob (after_keys inp w))))))
              (glob (after_keys inp w))) as (Hvel & _).
  rewrite Hvel.
  repeat split. intros Hk. unfold after_keys.
  rewrite (keyFunctions_vel _ _ _ Hk). apply move_sliders_keeps.
Qed.

Lemma not_found_keeps_setpoints_witness :
  vel (glob (cycle (cv := dots_vision) (mkInput (chr "f") [(HueLow, 5)] false dark_frame)
                   (world_of bright_globals)))
  = vel (glob (world_of bright_globals)).
Proof.
  destruct (not_found_keeps_setpoints (cv := dots_vision)
              (mkInput (chr "f") [(HueLow, 5)] false dark_frame)
              (world_of bright_globals)) as (_ & _ & _ & _ & Hvel & _).
  - vm_compute. reflexivity.
  - apply Hvel. vm_compute. reflexivity.
Defined.

(** ** Configuration round trip *)

Lemma read_write_config (c : Config) : read_config (write_config c) = c.
Proof. destruct c. reflexivity. Qed.

Lemma saveConfigValues_front (w : World) :
  camera (glob w) = 0 ->
  saveConfigValues w
  = mkWorld (glob w)
            (mkFiles (write_config (cfg (glob w))) (bottom_camera_config (files w)))
            (sent w).
Proof. intros H. unfold saveConfigValues. rewrite H. reflexivity. Qed.

Lemma saveConfigValues_bottom (w : World) :
  camera (glob w) = 1 ->
  saveConfigValues w
  = mkWorld (glob w)
            (mkFiles (front_camera_config (files w)) (write_config (cfg (glob w))))
            (sent w).
Proof. intros H. unfold saveConfigValues. rewrite H. reflexivity. Qed.

Lemma toggle_front (w : World) :
  camera (glob w) = 0 ->
  toggle w
  = mkWorld (set_cfg (read_config (bottom_camera_config (files w)))
                     (set_camera 1 (glob w)))
            (mkFiles (write_config (cfg (glob w))) (bottom_camera_config (files w)))
            (sent w).
Proof.
  intros H. unfold toggle. rewrite (saveConfigValues_front w H).
  unfold loadConfigValues. cbn [glob files set_glob camera set_camera]. rewrite H.
  reflexivity.
Qed.

Lemma toggle_bottom (w : World) :
  camera (glob w) = 1 ->
  toggle w
  = mkWorld (set_cfg (read_config (front_camera_config (files w)))
                     (set_camera 0 (glob w)))
            (mkFiles (front_camera_config (files w)) (write_config (cfg (glob w))))
            (sent w).
Proof.
  intros H. unfold toggle. rewrite (saveConfigValues_bottom w H).
  unfold loadConfigValues. cbn [glob files set_glob camera set_camera]. rewrite H.
  reflexivity.
Qed.

Lemma keyFunctions_c (og : bool) (w : World) : keyFunctions (chr "c") og w = toggle w.
Proof. reflexivity. Qed.

(** C9: from the FRONT camera with configuration X, saving and pressing [c]
    twice ends on the FRONT camera with X active again.  Each toggle persists
    the values of the camera it leaves, flips the camera and loads the other
    file: the first stores X in the front file (also when nothing was saved
    before) and loads the bottom file, the second stores what was loaded in
    the bottom file and loads the front file; so the round trip holds
    without the explicit save too. *)
Theorem toggle_round_trip (og og' : bool) (w : World) :
  camera (glob w) = 0 ->
  cfg (glob (keyFunctions (chr "c") og' (keyFunctions (chr "c") og (saveConfigValues w))))
  = cfg (glob w)
  /\ camera (glob (keyFunctions (chr "c") og'
                     (keyFunctions (chr "c") og (saveConfigValues w)))) = 0
  /\ camera (glob (keyFunctions (chr "c") og (saveConfigValues w))) = 1
  /\ cfg (glob (keyFunctions (chr "c") og (saveConfigValues w)))
     = read_config (bottom_camera_config (files w))
  /\ front_camera_config (files (keyFunctions (chr "c") og (saveConfigValues w)))
     = write_config (cfg (glob w))
  /\ bottom_camera_config
       (files (keyFunctions (chr "c") og'
                 (keyFunctions (chr "c") og (saveConfigValues w))))
     = write_config (read_config (bottom_camera_config (files w)))
  /\ front_camera_config
       (files (keyFunctions (chr "c") og'
                 (keyFunctions (chr "c") og (saveConfigValues w))))
     = write_config (cfg (glob w))
  /\ front_camera_config (files (keyFunctions (chr "c") og w))
     = write_config (cfg (glob w))
  /\ bottom_camera_config (files (keyFunctions (chr "c") og w))
     = bottom_camera_config (files w)
  /\ cfg (glob (keyFunctions (chr "c") og' (keyFunctions (chr "c") og w)))
     = cfg (glob w)
  /\ bottom_camera_config
       (files (keyFunctions (chr "c") og' (keyFunctions (chr "c") og w)))
     = write_config (read_config (bottom_camera_config (files w))).
Proof.
  intros Hcam. rewrite !keyFunctions_c.
  rewrite (saveConfigValues_front w Hcam).
  rewrite (toggle_front (mkWorld (glob w) _ (sent w)) Hcam).
  rewrite (toggle_front w Hcam).
  rewrite !toggle_bottom by reflexivity.
  cbn [glob files cfg camera set_cfg set_camera front_camera_config bottom_camera_config].
  rewrite !read_write_config. repeat split.
Qed.

Lemma toggle_round_trip_witness :
  cfg (glob (keyFunctions (chr "c") false
               (keyFunctions (chr "c") false (saveConfigValues tuned_front_world))))
  = mkConfig 10 40 50 255 60 255 3 400 300 160.
Proof.
  apply (toggle_round_trip false false tuned_front_world). reflexivity.
Defined.

(** ** Automatic landing *)

Lemma keyFunctions_idle (og : bool) (w : World) : keyFunctions (-1) og w = w.
Proof. reflexivity. Qed.

(** One iteration in BOTTOM mode, following and landing automatically, with
    an area above both scaled bounds: the land command is sent, and the mode,
    the switches and the configuration are as before. *)
Lemma after_moments_lands (m : Moments) (w : World) :
  camera (glob w) = 1 ->
  truthy (follow (glob w)) = true -> truthy (auto_land (glob w)) = true ->
  (m00 m >? int_mul (min_area (cfg (glob w))) 100000) = true ->
  (m00 m >? int_mul (max_area (cfg (glob w))) 100000) = true ->
  sent (after_moments m w) = sent w ++ [Landing]
  /\ camera (glob (after_moments m w)) = 1
  /\ follow (glob (after_moments m w)) = follow (glob w)
  /\ auto_land (glob (after_moments m w)) = auto_land (glob w)
  /\ cfg (glob (after_moments m w)) = cfg (glob w)
  /\ area (glob (after_moments m w)) = m00 m.
Proof.
  intros Hcam Hfol Hland Hmin Hmax.
  unfold after_moments, locate. simpl_globals. rewrite Hmin.
  unfold follow_stage. simpl_globals.
  change (truthy 1) with true. cbv iota.
  rewrite Hfol. rewrite followObject_bottom by exact Hcam.
  unfold follow_bottom, send, stat_tick. revert Hland Hmax.
  split_ifs; intros Hland Hmax; try discriminate; repeat split; assumption.
Qed.

(** C5 as stated fails: two successive iterations in BOTTOM mode, automatic
    landing on, with the area above [max_area * 100000] in both, send the land
    command twice. *)
Lemma landing_sent_twice :
  camera (glob landing_world) = 1
  /\ truthy (auto_land (glob landing_world)) = true
  /\ area (glob (after_moments big_blob landing_world))
     > max_area (cfg (glob landing_world)) * 100000
  /\ area (glob (after_moments big_blob (after_moments big_blob landing_world)))
     > max_area (cfg (glob landing_world)) * 100000
  /\ sent (after_moments big_blob (after_moments big_blob landing_world))
     = [Landing; Landing]
  /\ ~ (landings (after_moments big_blob (after_moments big_blob landing_world)) <= 1)%nat.
Proof.
  repeat split; try (vm_compute; reflexivity).
  vm_compute. intros H. inversion H as [| n H']. inversion H'.
Qed.

(** * Further properties *)

(** ** The order of doubles *)

Ltac key_yes :=
  split; [intros _; eexists; eexists; split; [reflexivity | split; [reflexivity | cbn; lia]]
         | intros _; reflexivity].

Ltac key_no :=
  split; [discriminate
         | intros (a & b & Ha & Hb & Hl); try discriminate;
           inversion Ha; inversion Hb; subst; cbn in Hl; lia].

Lemma SFltb_key (f g : spec_float) :
  SFltb f g = true <->
  exists a b, sf_key f = Some a /\ sf_key g = Some b /\ key_lt a b.
Proof.
  unfold SFltb, SFcompare, key_lt.
  destruct f as [sf | sf | | sf mf ef], g as [sg | sg | | sg mg eg];
    try destruct sf; try destruct sg; cbn [sf_key];
    try rewrite Pos.compare_cont_spec; cbn [Pos.switch_Eq];
    try destruct (Z.compare_spec ef eg); try destruct (Pos.compare_spec mf mg);
    cbn [CompOpp];
    first [key_yes | key_no].
Qed.

Lemma ltb_comparable (u v : double) :
  PrimFloat.ltb u v = true -> comparable u /\ comparable v.
Proof.
  rewrite FloatAxioms.ltb_spec, SFltb_key. intros (a & b & Ha & Hb & _).
  unfold comparable. rewrite Ha, Hb. split; discriminate.
Qed.

Lemma ltb_trans (u v w : double) :
  PrimFloat.ltb u v = true -> PrimFloat.ltb v w = true -> PrimFloat.ltb u w = true.
Proof.
  rewrite !FloatAxioms.ltb_spec, !SFltb_key.
  intros (a & b & Ha & Hb & Hab) (b' & c & Hb' & Hc & Hbc).
  rewrite Hb in Hb'. inversion Hb'. subst b'.
  exists a, c. repeat split; try assumption.
  unfold key_lt in *. lia.
Qed.

(** If [u < w] and [v] is not above [u], then [v < w]. *)
Lemma ltb_below (u v w : double) :
  PrimFloat.ltb u w = true -> PrimFloat.ltb u v = false -> comparable v ->
  PrimFloat.ltb v w = true.
Proof.
  rewrite !FloatAxioms.ltb_spec. unfold comparable. intros Huw Huv Hv.
  destruct (sf_key (Prim2SF v)) as [b |] eqn:Hb; [| congruence].
  apply SFltb_key in Huw. destruct Huw as (a & c & Ha & Hc & Hac).
  apply SFltb_key. exists b, c. repeat split; try assumption.
  assert (Hn : ~ key_lt a b).
  { intros Hab.
    assert (SFltb (Prim2SF u) (Prim2SF v) = true) by (apply SFltb_key; eauto).
    congruence. }
  unfold key_lt in *. lia.
Qed.

Lemma ltb_irrefl (u : double) : PrimFloat.ltb u u = false.
Proof.
  apply not_true_is_false. rewrite FloatAxioms.ltb_spec, SFltb_key.
  intros (a & b & Ha & Hb & Hab). rewrite Ha in Hb. inversion Hb. subst b.
  unfold key_lt in Hab. lia.
Qed.

Lemma not_nan_comparable (u : double) : PrimFloat.is_nan u = false -> comparable u.
Proof.
  unfold PrimFloat.is_nan, comparable. rewrite FloatAxioms.eqb_spec. intros H Hk.
  destruct (Prim2SF u) as [s | s | | s m e]; try destruct s; try discriminate.
Qed.

(** ** Contour selection (lines 278-290) *)

Section Selection.
Context {cv : Vision}.

(** What the loop leaves, from any point of the scan: the recorded maximum is
    not below the one it started from nor below the area of any contour
    scanned; either nothing was recorded, or the recorded contour is above the
    starting maximum and above every comparable contour scanned before it. *)
Lemma largest_from_spec (contours : list Contour) (i : Z) (acc : Z * double) :
  comparable (snd acc) ->
  comparable (snd (largest_from i contours acc))
  /\ PrimFloat.ltb (snd (largest_from i contours acc)) (snd acc) = false
  /\ (forall c, In c contours ->
        PrimFloat.ltb (snd (largest_from i contours acc)) (contourArea c) = false)
  /\ ((largest_from i contours acc = acc)
      \/ exists (k : nat) (c : Contour),
           nth_error contours k = Some c
           /\ largest_from i contours acc = (i + Z.of_nat k, contourArea c)
           /\ PrimFloat.ltb (snd acc) (contourArea c) = true
           /\ forall (j : nat) (c' : Contour),
                (j < k)%nat -> nth_error contours j = Some c' ->
                comparable (contourArea c') ->
                PrimFloat.ltb (contourArea c') (contourArea c) = true).
Proof.
  revert i acc. induction contours as [| c rest IH]; intros i acc Hacc.
  - cbn [largest_from]. repeat split.
    + exact Hacc.
    + apply ltb_irrefl.
    + intros c [].
    + left. reflexivity.
  - cbn [largest_from].
    destruct (PrimFloat.ltb (snd acc) (contourArea c)) eqn:Hup.
    + (* [c] becomes the recorded contour *)
      destruct (ltb_comparable _ _ Hup) as [_ Hc].
      destruct (IH (i + 1) (i, contourArea c) Hc) as (Hcmp & Hmono & Hall & Hsel).
      cbn [snd] in Hmono.
      split; [exact Hcmp | split; [| split]].
      * apply not_true_is_false. intros Hlt.
        pose proof (ltb_trans _ _ _ Hlt Hup) as Hbad. congruence.
      * intros c' [<- | Hin]; [exact Hmono | apply Hall, Hin].
      * right. destruct Hsel as [Hsame | (k & c1 & Hk & Hres & Hgt & Hbefore)].
        -- exists 0%nat, c. cbn [nth_error]. rewrite Hsame.
           repeat split; try assumption.
           ++ f_equal. lia.
           ++ intros j c' Hj. lia.
        -- exists (S k), c1. cbn [nth_error snd] in *. rewrite Hres.
           repeat split; try assumption.
           ++ f_equal. lia.
           ++ apply (ltb_trans _ _ _ Hup Hgt).
           ++ intros [| j] c' Hj Hnth Hc'.
              ** cbn [nth_error] in Hnth. inversion Hnth. subst c'. exact Hgt.
              ** cbn [nth_error] in Hnth. apply (Hbefore j c'); [lia | assumption ..].
    + (* the recorded contour stays *)
      destruct (IH (i + 1) acc Hacc) as (Hcmp & Hmono & Hall & Hsel).
      split; [exact Hcmp | split; [exact Hmono | split]].
      * intros c' [<- | Hin]; [| apply Hall, Hin].
        apply not_true_is_false. intros Hlt.
        pose proof (ltb_below _ _ _ Hlt Hmono Hacc) as Hbad. congruence.
      * destruct Hsel as [Hsame | (k & c1 & Hk & Hres & Hgt & Hbefore)].
        -- left. exact Hsame.
        -- right. exists (S k), c1. cbn [nth_error]. rewrite Hres.
           repeat split; try assumption.
           ++ f_equal. lia.
           ++ intros [| j] c' Hj Hnth Hc'.
              ** cbn [nth_error] in Hnth. inversion Hnth. subst c'.
                 apply (ltb_below _ _ _ Hgt Hup Hc').
              ** cbn [nth_error] in Hnth. apply (Hbefore j c'); [lia | assumption ..].
Qed.

Lemma zero_comparable : comparable 0%float.
Proof. unfold comparable. vm_compute. discriminate. Qed.

(** X1: the contour selected is one of maximal area, the first of them, and never
    one whose area is not above zero: [largest_contour_id] is -1 exactly when
    no contour has an area above zero, and otherwise the index of a contour
    that no contour exceeds and that exceeds every comparable contour before
    it. *)
Theorem largest_contour_id_maximal (contours : list Contour) :
  (largest_contour_id contours = -1 <->
     forall c, In c contours -> PrimFloat.ltb 0%float (contourArea c) = false)
  /\ (largest_contour_id contours <> -1 ->
      exists c,
        0 <= largest_contour_id contours < Z.of_nat (length contours)
        /\ nth_error contours (Z.to_nat (largest_contour_id contours)) = Some c
        /\ PrimFloat.ltb 0%float (contourArea c) = true
        /\ (forall c', In c' contours ->
              PrimFloat.ltb (contourArea c) (contourArea c') = false)
        /\ (forall (j : nat) (c' : Contour),
              Z.of_nat j < largest_contour_id contours ->
              nth_error contours j = Some c' ->
              PrimFloat.is_nan (contourArea c') = false ->
              PrimFloat.ltb (contourArea c') (contourArea c) = true)).
Proof.
  unfold largest_contour_id.
  destruct (largest_from_spec contours 0 (-1, 0%float) zero_comparable)
    as (_ & _ & Hall & Hsel).
  destruct Hsel as [Hsame | (k & c & Hk & Hres & Hgt & Hbefore)].
  - rewrite Hsame in *. cbn [fst snd] in *. split.
    + split; [intros _; exact Hall | reflexivity].
    + intros Hne. congruence.
  - rewrite Hres in *. cbn [fst snd] in *. split.
    + split; [lia |].
      intros Hnone. apply nth_error_In in Hk. rewrite (Hnone c Hk) in Hgt. discriminate.
    + intros _. exists c.
      assert (Hlen : (k < length contours)%nat)
        by (apply nth_error_Some; congruence).
      replace (Z.to_nat (0 + Z.of_nat k)) with k by lia.
      repeat split; try assumption; try lia.
      intros j c' Hj Hnth Hnan.
      apply (Hbefore j c'); [lia | exact Hnth | apply not_nan_comparable, Hnan].
Qed.

End Selection.

(** ** Thresholding (line 269) *)

(** X2: thresholds with a low bound above the high bound on some channel
    select no pixel: the mask that [inRange] returns has no foreground. *)
Theorem inRange_inverted_bounds (src : HsvImage) (lo hi : Z * Z * Z) :
  fst (fst hi) < fst (fst lo) \/ snd (fst hi) < snd (fst lo) \/ snd hi < snd lo ->
  no_foreground (inRange src lo hi) = true.
Proof.
  destruct lo as [[l1 l2] l3], hi as [[h1 h2] h3]. cbn [fst snd]. intros H.
  unfold inRange, no_foreground.
  rewrite forallb_forall. intros r Hr.
  apply in_map_iff in Hr. destruct Hr as (r0 & <- & _).
  rewrite forallb_forall. intros p Hp.
  apply in_map_iff in Hp. destruct Hp as ([[c1 c2] c3] & <- & _).
  replace ((l1 <=? c1) && (c1 <=? h1) && (l2 <=? c2) && (c2 <=? h2)
           && (l3 <=? c3) && (c3 <=? h3)) with false; [reflexivity |].
  symmetry. rewrite !andb_false_iff, !Z.leb_gt. lia.
Qed.

Lemma inRange_inverted_bounds_witness :
  no_foreground (inRange one_dot_frame (0, 0, 200) (179, 255, 100)) = true.
Proof. apply inRange_inverted_bounds. cbn. lia. Defined.

(** ** Moments and the centroid (lines 297-306) *)

Lemma row_bounds (a b : Z) (r : list Z) (x0 : Z) :
  Forall (fun p => 0 <= p <= 255) r ->
  (forall k : nat, nth k r 0 <> 0 -> a <= x0 + Z.of_nat k <= b) ->
  0 <= row_m00 r <= 255 * Z.of_nat (length r)
  /\ a * row_m00 r <= row_m10 x0 r <= b * row_m00 r.
Proof.
  intros Hpix. revert x0. induction Hpix as [| p r Hp Hr IH]; intros x0 Hsup.
  - cbn. lia.
  - cbn [row_m00 fold_right row_m10 length].
    fold (row_m00 r).
    destruct (IH (x0 + 1)) as (Hm & Hx).
    { intros k Hk. specialize (Hsup (S k) Hk). lia. }
    assert (Hp0 : p = 0 \/ a <= x0 <= b).
    { destruct (Z.eq_dec p 0) as [-> | Hne]; [left; reflexivity | right].
      specialize (Hsup 0%nat Hne). lia. }
    split; [lia |]. destruct Hp0 as [-> | Hx0]; [lia | nia].
Qed.

Lemma moments_from_bounds (a b c d : Z) (img : Image) (y0 : Z) :
  pixels_8bit img ->
  (forall x y : nat,
     nth x (nth y img []) 0 <> 0 ->
     a <= Z.of_nat x <= b /\ c <= y0 + Z.of_nat y <= d) ->
  0 <= m00 (moments_from y0 img)
  /\ a * m00 (moments_from y0 img) <= m10 (moments_from y0 img)
     <= b * m00 (moments_from y0 img)
  /\ c * m00 (moments_from y0 img) <= m01 (moments_from y0 img)
     <= d * m00 (moments_from y0 img).
Proof.
  intros Hpix. revert y0. induction Hpix as [| r img Hr Himg IH]; intros y0 Hsup.
  - cbn. lia.
  - cbn [moments_from m00 m10 m01].
    destruct (IH (y0 + 1)) as (H0 & Hx & Hy).
    { intros x y Hxy. specialize (Hsup x (S y) Hxy). lia. }
    destruct (row_bounds a b r 0 Hr) as (Hr0 & Hrx).
    { intros k Hk. specialize (Hsup k 0%nat Hk). lia. }
    assert (Hrow : row_m00 r = 0 \/ c <= y0 <= d).
    { destruct (Z.eq_dec (row_m00 r) 0) as [Hz | Hnz]; [left; exact Hz | right].
      assert (Hex : exists k : nat, nth k r 0 <> 0).
      { clear - Hnz. induction r as [| p r IHr]; [cbn in Hnz; lia |].
        destruct (Z.eq_dec p 0) as [-> | Hp].
        - cbn in Hnz. destruct (IHr Hnz) as [k Hk]. exists (S k). exact Hk.
        - exists 0%nat. exact Hp. }
      destruct Hex as [k Hk]. specialize (Hsup k 0%nat Hk). lia. }
    split; [lia | split; [lia |]].
    destruct Hrow as [-> | Hy0]; [lia | nia].
Qed.

Lemma row_m00_le (r : list Z) :
  Forall (fun p => 0 <= p <= 255) r -> 0 <= row_m00 r <= 255 * Z.of_nat (length r).
Proof.
  intros H. induction H as [| p r Hp Hr IH]; cbn [row_m00 fold_right length].
  - lia.
  - fold (row_m00 r). lia.
Qed.

Lemma m00_from_le (rows cols : Z) (img : Image) (y0 : Z) :
  pixels_8bit img -> 0 <= cols ->
  Forall (fun r => Z.of_nat (length r) <= cols) img ->
  0 <= m00 (moments_from y0 img) <= 255 * cols * Z.of_nat (length img).
Proof.
  intros Hpix Hc Hfit. revert y0.
  induction Hpix as [| r img Hr Himg IH]; intros y0.
  - cbn. lia.
  - cbn [moments_from m00 length]. inversion Hfit as [| r' img' Hlen Hrest]. subst.
    specialize (IH Hrest (y0 + 1)). pose proof (row_m00_le r Hr). nia.
Qed.

(** The zeroth moment of an 8-bit image that fits the frame is between 0 and
    255 * 640 * 360. *)
Lemma moments_area_bound (img : Image) :
  pixels_8bit img -> fits HEIGHT WIDTH img ->
  0 <= m00 (moments img) <= 58752000
  /\ in_int (m00 (moments img))
  /\ m00 (moments img) < 2 ^ 53.
Proof.
  intros Hpix (Hrows & Hcols).
  pose proof (m00_from_le HEIGHT WIDTH img 0 Hpix ltac:(unfold WIDTH; lia) Hcols) as H.
  unfold moments. unfold HEIGHT, WIDTH in *.
  assert (Hb : 0 <= m00 (moments_from 0 img) <= 58752000) by nia.
  split; [exact Hb | split].
  - unfold in_int, INT_MIN, INT_MAX. lia.
  - change (2 ^ 53) with 9007199254740992. lia.
Qed.

Lemma pixels_8bitb_correct (img : Image) : pixels_8bitb img = true -> pixels_8bit img.
Proof.
  unfold pixels_8bitb, pixels_8bit. rewrite forallb_forall, List.Forall_forall.
  intros H r Hr. specialize (H r Hr). rewrite forallb_forall in H.
  apply List.Forall_forall. intros p Hp. specialize (H p Hp). lia.
Qed.

Lemma fitsb_correct (rows cols : Z) (img : Image) :
  fitsb rows cols img = true -> fits rows cols img.
Proof.
  unfold fitsb, fits. rewrite andb_true_iff, forallb_forall, List.Forall_forall.
  intros [Hr Hc]. split; [lia |]. intros r Hr'. specialize (Hc r Hr'). lia.
Qed.

Lemma row_supportb_correct (a b : Z) (inside : bool) (r : list Z) (x0 : Z) :
  row_supportb a b inside x0 r = true ->
  forall k : nat, nth k r 0 <> 0 -> inside = true /\ a <= x0 + Z.of_nat k <= b.
Proof.
  revert x0. induction r as [| p r IH]; intros x0 H k Hk.
  - destruct k; cbn in Hk; congruence.
  - cbn [row_supportb] in H. apply andb_true_iff in H. destruct H as [Hp Hr].
    destruct k as [| k]; cbn [nth] in Hk.
    + apply orb_true_iff in Hp. destruct Hp as [Hp | Hp]; [lia |].
      rewrite !andb_true_iff in Hp. destruct Hp as [[Hin Hlo] Hhi].
      split; [exact Hin | lia].
    + destruct (IH (x0 + 1) Hr k Hk). split; [assumption | lia].
Qed.

Lemma supportb_from_correct (a b c d : Z) (img : Image) (y0 : Z) :
  supportb_from a b c d y0 img = true ->
  forall x y : nat,
    nth x (nth y img []) 0 <> 0 ->
    a <= Z.of_nat x <= b /\ c <= y0 + Z.of_nat y <= d.
Proof.
  revert y0. induction img as [| r img IH]; intros y0 H x y Hxy.
  - destruct y, x; cbn in Hxy; congruence.
  - cbn [supportb_from] in H. apply andb_true_iff in H. destruct H as [Hr Himg].
    destruct y as [| y]; cbn [nth] in Hxy.
    + destruct (row_supportb_correct _ _ _ _ _ Hr x Hxy) as [Hin Hx].
      rewrite andb_true_iff in Hin. lia.
    + destruct (IH (y0 + 1) Himg x y Hxy). lia.
Qed.

Lemma supportb_correct (a b c d : Z) (img : Image) :
  supportb a b c d img = true -> support a b c d img.
Proof.
  intros H x y Hxy. pose proof (supportb_from_correct a b c d img 0 H x y Hxy). lia.
Qed.

(** An image that fits [rows] x [cols] has its set pixels in that box. *)
Lemma fits_support (rows cols : Z) (img : Image) :
  fits rows cols img -> support 0 (cols - 1) 0 (rows - 1) img.
Proof.
  intros (Hrows & Hcols) x y Hxy.
  assert (Hy : (y < length img)%nat).
  { destruct (Nat.lt_ge_cases y (length img)) as [Hlt | Hge]; [exact Hlt |].
    rewrite (nth_overflow img [] Hge) in Hxy. destruct x; cbn in Hxy; congruence. }
  assert (Hx : (x < length (nth y img []))%nat).
  { destruct (Nat.lt_ge_cases x (length (nth y img []))) as [Hlt | Hge]; [exact Hlt |].
    rewrite (nth_overflow _ 0 Hge) in Hxy. congruence. }
  rewrite List.Forall_forall in Hcols.
  specialize (Hcols (nth y img []) (nth_In img [] Hy)). lia.
Qed.

Lemma quotient_between (a b m n : Z) :
  0 <= a -> 0 < n -> a * n <= m <= b * n -> a <= Z.quot m n <= b.
Proof.
  intros Ha Hn Hm. rewrite Z.quot_div_nonneg by nia.
  split.
  - apply Z.div_le_lower_bound; lia.
  - apply Z.div_le_upper_bound; lia.
Qed.

Lemma truncated_quotient_between (a b m n : Z) :
  0 <= a -> b <= INT_MAX -> 0 < n -> a * n <= m <= b * n ->
  a <= truncated_quotient m n <= b.
Proof.
  intros Ha Hb Hn Hm. unfold truncated_quotient.
  pose proof (quotient_between a b m n Ha Hn Hm) as Hq.
  destruct (Z.eqb_spec n 0); [lia |].
  unfold INT_MIN, INT_MAX in *.
  destruct (Z.leb_spec (-2147483648) (Z.quot m n)); [| lia].
  destruct (Z.leb_spec (Z.quot m n) 2147483647); [| lia].
  exact Hq.
Qed.

(** The centroid stored on a detection lies in the bounding box of the set
    pixels of the image whose moments were taken. *)
Lemma locate_in_support (a b c d : Z) (img : Image) (g : Globals) :
  pixels_8bit img -> support a b c d img ->
  0 <= a -> 0 <= c -> b <= INT_MAX -> d <= INT_MAX ->
  0 <= min_area (cfg g) -> in_int (min_area (cfg g) * 100000) ->
  snd (locate (moments img) g) = 1 ->
  a <= pos_x (fst (locate (moments img) g)) <= b
  /\ c <= pos_y (fst (locate (moments img) g)) <= d.
Proof.
  intros Hpix Hsup Ha Hc Hb Hd Hmin Hint Hfound.
  destruct (moments_from_bounds a b c d img 0 Hpix) as (H0 & Hx & Hy).
  { intros x y Hxy. destruct (Hsup x y Hxy). lia. }
  fold (moments img) in *.
  revert Hfound. unfold locate. simpl_globals.
  unfold int_mul. rewrite (wrap_in_int _ Hint). rewrite Z.gtb_ltb.
  destruct (Z.ltb_spec (min_area (cfg g) * 100000) (m00 (moments img))) as [Hlt | Hge];
    simpl_globals; [intros _ | discriminate].
  split; apply truncated_quotient_between; assumption || lia.
Qed.

(** X4: on a detection, [pos_x] and [pos_y] lie in the bounding box of the
    set pixels of the image that was drawn: the truncated quotients
    [m10 / m00] and [m01 / m00] cannot leave it. *)
Theorem centroid_in_bounding_box {cv : Vision} (a b c d : Z)
        (img_hsv : HsvImage) (g : Globals) :
  pixels_8bit (result_image (segment img_hsv (cfg g))) ->
  support a b c d (result_image (segment img_hsv (cfg g))) ->
  0 <= a -> 0 <= c -> b <= INT_MAX -> d <= INT_MAX ->
  0 <= min_area (cfg g) -> in_int (min_area (cfg g) * 100000) ->
  snd (detectObject img_hsv g) = 1 ->
  a <= pos_x (fst (detectObject img_hsv g)) <= b
  /\ c <= pos_y (fst (detectObject img_hsv g)) <= d.
Proof. unfold detectObject. apply locate_in_support. Qed.

Lemma centroid_in_bounding_box_witness :
  2 <= pos_x (fst (detectObject (cv := dots_vision) one_dot_frame bright_globals)) <= 2
  /\ 1 <= pos_y (fst (detectObject (cv := dots_vision) one_dot_frame bright_globals)) <= 1.
Proof.
  apply (centroid_in_bounding_box (cv := dots_vision) 2 2 1 1 one_dot_frame bright_globals).
  - apply pixels_8bitb_correct. vm_compute. reflexivity.
  - apply supportb_correct. vm_compute. reflexivity.
  - lia.
  - lia.
  - unfold INT_MAX. lia.
  - unfold INT_MAX. lia.
  - cbn. lia.
  - solve_in_int.
  - vm_compute. reflexivity.
Defined.

(** X5: a detection in an image that fits the frame has its centroid on a
    pixel of the frame: the positions for which the set-point ranges were
    established. *)
Theorem detected_centroid_in_frame {cv : Vision} (img_hsv : HsvImage) (g : Globals) :
  pixels_8bit (result_image (segment img_hsv (cfg g))) ->
  fits HEIGHT WIDTH (result_image (segment img_hsv (cfg g))) ->
  0 <= min_area (cfg g) -> in_int (min_area (cfg g) * 100000) ->
  snd (detectObject img_hsv g) = 1 ->
  0 <= pos_x (fst (detectObject img_hsv g)) < WIDTH
  /\ 0 <= pos_y (fst (detectObject img_hsv g)) < HEIGHT.
Proof.
  intros Hpix Hfit Hmin Hint Hfound.
  pose proof (fits_support _ _ _ Hfit) as Hsup.
  destruct (locate_in_support 0 (WIDTH - 1) 0 (HEIGHT - 1) _ g Hpix Hsup) as [Hx Hy];
    try assumption; try (unfold WIDTH, HEIGHT, INT_MAX; lia).
  unfold detectObject. lia.
Qed.

Lemma detected_centroid_in_frame_witness :
  0 <= pos_x (fst (detectObject (cv := dots_vision) one_dot_frame bright_globals)) < WIDTH
  /\ 0 <= pos_y (fst (detectObject (cv := dots_vision) one_dot_frame bright_globals)) < HEIGHT.
Proof.
  apply (detected_centroid_in_frame (cv := dots_vision) one_dot_frame bright_globals).
  - apply pixels_8bitb_correct. vm_compute. reflexivity.
  - apply fitsb_correct. vm_compute. reflexivity.
  - cbn. lia.
  - solve_in_int.
  - vm_compute. reflexivity.
Defined.

(** X3: the area that [detectObject] stores for an 8-bit image that fits the
    frame is between 0 and 255 * 640 * 360 = 58752000: an [int], and far
    below 2^53, where a [double] holds every integer. *)
Theorem detected_area_bound {cv : Vision} (img_hsv : HsvImage) (g : Globals) :
  pixels_8bit (result_image (segment img_hsv (cfg g))) ->
  fits HEIGHT WIDTH (result_image (segment img_hsv (cfg g))) ->
  0 <= area (fst (detectObject img_hsv g)) <= 58752000
  /\ in_int (area (fst (detectObject img_hsv g)))
  /\ area (fst (detectObject img_hsv g)) < 2 ^ 53.
Proof.
  intros Hpix Hfit. unfold detectObject. rewrite locate_area.
  apply moments_area_bound; assumption.
Qed.

Lemma detected_area_bound_witness :
  0 <= area (fst (detectObject (cv := dots_vision) one_dot_frame bright_globals)) <= 58752000.
Proof.
  apply (detected_area_bound (cv := dots_vision) one_dot_frame bright_globals).
  - apply pixels_8bitb_correct. vm_compute. reflexivity.
  - apply fitsb_correct. vm_compute. reflexivity.
Defined.

(** ** What [detectObject] and [followObject] leave alone *)

(** X6: [detectObject] writes [area], and [pos_x] and [pos_y] on a detection
    only: without one the last position stays, and the switches, the
    configuration and the set-points are never touched. *)
Theorem detectObject_writes {cv : Vision} (img_hsv : HsvImage) (g : Globals) :
  stat_count (fst (detectObject img_hsv g)) = stat_count g
  /\ follow (fst (detectObject img_hsv g)) = follow g
  /\ auto_land (fst (detectObject img_hsv g)) = auto_land g
  /\ camera (fst (detectObject img_hsv g)) = camera g
  /\ detected (fst (detectObject img_hsv g)) = detected g
  /\ cfg (fst (detectObject img_hsv g)) = cfg g
  /\ vel (fst (detectObject img_hsv g)) = vel g
  /\ (snd (detectObject img_hsv g) = 0 \/ snd (detectObject img_hsv g) = 1)
  /\ (snd (detectObject img_hsv g) = 0 ->
      pos_x (fst (detectObject img_hsv g)) = pos_x g
      /\ pos_y (fst (detectObject img_hsv g)) = pos_y g).
Proof.
  unfold detectObject, locate. simpl_globals.
  destruct (_ >? _); simpl_globals; repeat split; auto; discriminate.
Qed.

(** X7: [followObject] writes set-points only, and sends at most one command:
    [Landing], in BOTTOM mode with automatic landing on and the area above
    the scaled maximum. *)
Theorem followObject_writes (w : World) :
  files (followObject w) = files w
  /\ stat_count (glob (followObject w)) = stat_count (glob w)
  /\ follow (glob (followObject w)) = follow (glob w)
  /\ auto_land (glob (followObject w)) = auto_land (glob w)
  /\ camera (glob (followObject w)) = camera (glob w)
  /\ detected (glob (followObject w)) = detected (glob w)
  /\ pos_x (glob (followObject w)) = pos_x (glob w)
  /\ pos_y (glob (followObject w)) = pos_y (glob w)
  /\ area (glob (followObject w)) = area (glob w)
  /\ cfg (glob (followObject w)) = cfg (glob w)
  /\ sent (followObject w)
     = if (camera (glob w) =? 1) && truthy (auto_land (glob w))
          && (area (glob w) >? int_mul (max_area (cfg (glob w))) 100000)
       then sent w ++ [Landing] else sent w.
Proof.
  unfold followObject.
  destruct (camera (glob w) =? 0) eqn:H0.
  - apply Z.eqb_eq in H0. rewrite H0. change (0 =? 1) with false. cbn [andb].
    unfold follow_front. split_ifs; repeat split; assumption.
  - destruct (camera (glob w) =? 1) eqn:H1; [| repeat split].
    destruct (truthy (auto_land (glob w))) eqn:Hal;
      destruct (area (glob w) >? int_mul (max_area (cfg (glob w))) 100000) eqn:Har;
      cbn [andb]; unfold follow_bottom, send; revert Hal Har;
      split_ifs; intros Hal Har; try discriminate; repeat split;
      apply Z.eqb_eq; assumption.
Qed.

(** ** The proportional laws over the frame *)

Lemma falls_stepwise_correct (law : Z -> double) (n : nat) :
  falls_stepwise law n = true ->
  forall p q, 0 <= p -> p < q -> q < Z.of_nat n ->
              PrimFloat.ltb (law q) (law p) = true.
Proof.
  intros H p q Hp Hpq Hq.
  assert (Hstep : forall r, 0 <= r < Z.of_nat (n - 1) ->
                            PrimFloat.ltb (law (r + 1)) (law r) = true).
  { intros r Hr.
    exact (forallb_below (fun p => PrimFloat.ltb (law (p + 1)) (law p)) (n - 1) H r Hr). }
  replace q with (p + 1 + Z.of_nat (Z.to_nat (q - p - 1))) in * by lia.
  induction (Z.to_nat (q - p - 1)) as [| k IH].
  - replace (p + 1 + Z.of_nat 0) with (p + 1) by lia. apply Hstep. lia.
  - apply (ltb_trans _ (law (p + 1 + Z.of_nat k))).
    + replace (p + 1 + Z.of_nat (S k)) with (p + 1 + Z.of_nat k + 1) by lia.
      apply Hstep. lia.
    + apply IH; lia.
Qed.

Lemma opposes_offset_correct (law : Z -> double) (centre : Z) (n : nat) :
  opposes_offset law centre n = true ->
  forall p, 0 <= p < Z.of_nat n -> opposite_sign (p - centre) (law p) = true.
Proof.
  intros H. exact (forallb_below (fun p => opposite_sign (p - centre) (law p)) n H).
Qed.

Lemma vx_followObject_bottom (w : World) :
  camera (glob w) = 1 ->
  vx (vel (glob (followObject w)))
  = if y_outside (glob w) then bottom_vx (pos_y (glob w)) else vx (vel (glob w)).
Proof. intros H. rewrite (followObject_bottom w H). apply vx_follow_bottom. Qed.

Lemma vy_followObject_bottom (w : World) :
  camera (glob w) = 1 ->
  vy (vel (glob (followObject w)))
  = if x_outside (glob w) then bottom_vy (pos_x (glob w)) else vy (vel (glob w)).
Proof. intros H. rewrite (followObject_bottom w H). apply vy_follow_bottom. Qed.

Lemma vz_followObject_front (w : World) :
  camera (glob w) = 0 ->
  vz (vel (glob (followObject w)))
  = if y_outside (glob w) then front_vz (pos_y (glob w)) else vz (vel (glob w)).
Proof. intros H. rewrite (followObject_front w H). apply vz_follow_front. Qed.

(** X8: BOTTOM mode: outside the zone on y the forward set-point is
    [(pos_y - 180) / -400.0], outside on x the left/right set-point is
    [(pos_x - 320) / -800.0]; over the frame each has the sign opposite to the
    offset and falls strictly as the coordinate grows.  Inside the zone both
    keep their values.  The vertical set-point is -0.1 with automatic landing
    on and keeps its value with it off, whatever the position. *)
Theorem bottom_setpoints (w w' : World) :
  camera (glob w) = 1 -> camera (glob w') = 1 ->
  0 <= pos_x (glob w) < WIDTH -> 0 <= pos_y (glob w) < HEIGHT ->
  0 <= pos_x (glob w') < WIDTH -> 0 <= pos_y (glob w') < HEIGHT ->
  (y_outside (glob w) = true ->
     opposite_sign (pos_y (glob w) - 180) (vx (vel (glob (followObject w)))) = true
     /\ (y_outside (glob w') = true -> pos_y (glob w) < pos_y (glob w') ->
         PrimFloat.ltb (vx (vel (glob (followObject w'))))
                       (vx (vel (glob (followObject w)))) = true))
  /\ (x_outside (glob w) = true ->
        opposite_sign (pos_x (glob w) - 320) (vy (vel (glob (followObject w)))) = true
        /\ (x_outside (glob w') = true -> pos_x (glob w) < pos_x (glob w') ->
            PrimFloat.ltb (vy (vel (glob (followObject w'))))
                          (vy (vel (glob (followObject w)))) = true))
  /\ (y_outside (glob w) = false ->
      vx (vel (glob (followObject w))) = vx (vel (glob w)))
  /\ (x_outside (glob w) = false ->
      vy (vel (glob (followObject w))) = vy (vel (glob w)))
  /\ vz (vel (glob (followObject w)))
     = (if truthy (auto_land (glob w)) then (-0.1)%float else vz (vel (glob w)))
  /\ (y_outside (glob w) = true ->
      vx (vel (glob (followObject w)))
      = PrimFloat.div (double_of_int (pos_y (glob w) - 180)) (-400)%float)
  /\ (x_outside (glob w) = true ->
      vy (vel (glob (followObject w)))
      = PrimFloat.div (double_of_int (pos_x (glob w) - 320)) (-800)%float).
Proof.
  intros Hc Hc' Hx Hy Hx' Hy'.
  rewrite (vx_followObject_bottom w Hc), (vx_followObject_bottom w' Hc'),
    (vy_followObject_bottom w Hc), (vy_followObject_bottom w' Hc').
  assert (Hfx : falls_stepwise bottom_vx 360 = true) by (vm_compute; reflexivity).
  assert (Hfy : falls_stepwise bottom_vy 640 = true) by (vm_compute; reflexivity).
  assert (Hsx : opposes_offset bottom_vx 180 360 = true) by (vm_compute; reflexivity).
  assert (Hsy : opposes_offset bottom_vy 320 640 = true) by (vm_compute; reflexivity).
  split; [| split; [| split; [| split; [| split; [| split]]]]].
  - intros Ho. rewrite Ho. split.
    + apply (opposes_offset_correct _ _ _ Hsx). exact Hy.
    + intros Ho' Hlt. rewrite Ho'.
      apply (falls_stepwise_correct _ _ Hfx); unfold HEIGHT in *; lia.
  - intros Ho. rewrite Ho. split.
    + apply (opposes_offset_correct _ _ _ Hsy). exact Hx.
    + intros Ho' Hlt. rewrite Ho'.
      apply (falls_stepwise_correct _ _ Hfy); unfold WIDTH in *; lia.
  - intros Hi. rewrite Hi. reflexivity.
  - intros Hi. rewrite Hi. reflexivity.
  - rewrite (followObject_bottom w Hc). apply vz_follow_bottom.
  - intros Ho. rewrite Ho. apply bottom_vx_exact, Hy.
  - intros Ho. rewrite Ho. apply bottom_vy_exact, Hx.
Qed.

(** X9: FRONT mode: outside the zone on y the vertical set-point is
    [(pos_y - 180) / -250.0], of sign opposite to the offset and falling
    strictly as the row grows; inside it keeps its value.  The yaw rate falls
    strictly as the column grows. *)
Theorem front_vertical_setpoint (w w' : World) :
  camera (glob w) = 0 -> camera (glob w') = 0 ->
  0 <= pos_x (glob w) < WIDTH -> 0 <= pos_y (glob w) < HEIGHT ->
  0 <= pos_x (glob w') < WIDTH -> 0 <= pos_y (glob w') < HEIGHT ->
  (y_outside (glob w) = true ->
     opposite_sign (pos_y (glob w) - 180) (vz (vel (glob (followObject w)))) = true
     /\ (y_outside (glob w') = true -> pos_y (glob w) < pos_y (glob w') ->
         PrimFloat.ltb (vz (vel (glob (followObject w'))))
                       (vz (vel (glob (followObject w)))) = true))
  /\ (y_outside (glob w) = false ->
      vz (vel (glob (followObject w))) = vz (vel (glob w)))
  /\ (x_outside (glob w) = true -> x_outside (glob w') = true ->
      pos_x (glob w) < pos_x (glob w') ->
      PrimFloat.ltb (vr (vel (glob (followObject w'))))
                    (vr (vel (glob (followObject w)))) = true)
  /\ (y_outside (glob w) = true ->
      vz (vel (glob (followObject w)))
      = PrimFloat.div (double_of_int (pos_y (glob w) - 180)) (-250)%float).
Proof.
  intros Hc Hc' Hx Hy Hx' Hy'.
  rewrite (vz_followObject_front w Hc), (vz_followObject_front w' Hc'),
    (vr_followObject_front w Hc), (vr_followObject_front w' Hc').
  assert (Hfz : falls_stepwise front_vz 360 = true) by (vm_compute; reflexivity).
  assert (Hfr : falls_stepwise front_vr 640 = true) by (vm_compute; reflexivity).
  assert (Hsz : opposes_offset front_vz 180 360 = true) by (vm_compute; reflexivity).
  split; [| split; [| split]].
  - intros Ho. rewrite Ho. split.
    + apply (opposes_offset_correct _ _ _ Hsz). exact Hy.
    + intros Ho' Hlt. rewrite Ho'.
      apply (falls_stepwise_correct _ _ Hfz); unfold HEIGHT in *; lia.
  - intros Hi. rewrite Hi. reflexivity.
  - intros Ho Ho' Hlt. rewrite Ho, Ho'.
    apply (falls_stepwise_correct _ _ Hfr); unfold WIDTH in *; lia.
  - intros Ho. rewrite Ho. apply front_vz_exact, Hy.
Qed.

Lemma bottom_setpoints_witness :
  PrimFloat.ltb (vx (vel (glob (followObject (lower_right 1)))))
                (vx (vel (glob (followObject (upper_left 1))))) = true
  /\ PrimFloat.ltb (vy (vel (glob (followObject (lower_right 1)))))
                   (vy (vel (glob (followObject (upper_left 1))))) = true.
Proof.
  assert (Hx : 0 <= 100 < WIDTH) by (unfold WIDTH; lia).
  assert (Hy : 0 <= 50 < HEIGHT) by (unfold HEIGHT; lia).
  assert (Hx' : 0 <= 500 < WIDTH) by (unfold WIDTH; lia).
  assert (Hy' : 0 <= 300 < HEIGHT) by (unfold HEIGHT; lia).
  destruct (bottom_setpoints (upper_left 1) (lower_right 1) eq_refl eq_refl Hx Hy Hx' Hy')
    as (Hvx & Hvy & _).
  split.
  - apply Hvx; [reflexivity | reflexivity | cbn; lia].
  - apply Hvy; [reflexivity | reflexivity | cbn; lia].
Defined.

Lemma front_vertical_setpoint_witness :
  PrimFloat.ltb (vz (vel (glob (followObject (lower_right 0)))))
                (vz (vel (glob (followObject (upper_left 0))))) = true.
Proof.
  assert (Hx : 0 <= 100 < WIDTH) by (unfold WIDTH; lia).
  assert (Hy : 0 <= 50 < HEIGHT) by (unfold HEIGHT; lia).
  assert (Hx' : 0 <= 500 < WIDTH) by (unfold WIDTH; lia).
  assert (Hy' : 0 <= 300 < HEIGHT) by (unfold HEIGHT; lia).
  destruct (front_vertical_setpoint (upper_left 0) (lower_right 0)
              eq_refl eq_refl Hx Hy Hx' Hy') as (Hvz & _).
  apply Hvz; [reflexivity | reflexivity | cbn; lia].
Defined.

(** ** The drawn rectangle and the check (lines 127-136 and 322-349) *)

(** X10: for a zone no larger than the frame, the rectangle of [drawDeadzone] is
    centred on the frame; its right and bottom edges are the upper thresholds
    of the check, its left and top edges the lower thresholds for an even
    size and one pixel inside them for an odd size. *)
Theorem drawDeadzone_against_check (g : Globals) :
  0 <= deadzone_x (cfg g) <= WIDTH -> 0 <= deadzone_y (cfg g) <= HEIGHT ->
  fst (fst (drawDeadzone g)) + fst (snd (drawDeadzone g)) = WIDTH
  /\ snd (fst (drawDeadzone g)) + snd (snd (drawDeadzone g)) = HEIGHT
  /\ fst (snd (drawDeadzone g)) = Z.quot (WIDTH + deadzone_x (cfg g)) 2
  /\ snd (snd (drawDeadzone g)) = Z.quot (HEIGHT + deadzone_y (cfg g)) 2
  /\ fst (fst (drawDeadzone g))
     = Z.quot (WIDTH - deadzone_x (cfg g)) 2 + deadzone_x (cfg g) mod 2
  /\ snd (fst (drawDeadzone g))
     = Z.quot (HEIGHT - deadzone_y (cfg g)) 2 + deadzone_y (cfg g) mod 2.
Proof.
  unfold WIDTH, HEIGHT. intros Hx Hy.
  unfold drawDeadzone, WIDTH, HEIGHT. cbn [fst snd].
  rewrite !int_div_2 by solve_in_int.
  change (Z.quot 640 2) with 320. change (Z.quot 360 2) with 180.
  assert (Hqx : 0 <= Z.quot (deadzone_x (cfg g)) 2 <= 320)
    by (Z.to_euclidean_division_equations; lia).
  assert (Hqy : 0 <= Z.quot (deadzone_y (cfg g)) 2 <= 180)
    by (Z.to_euclidean_division_equations; lia).
  unfold int_sub, int_add. rewrite !wrap_in_int by solve_in_int.
  repeat split; Z.to_euclidean_division_equations; lia.
Qed.

Lemma drawDeadzone_against_check_witness :
  fst (fst (drawDeadzone (set_cfg odd_zone_config initial_globals)))
  = Z.quot (WIDTH - 5) 2 + 1.
Proof.
  assert (Hx : 0 <= deadzone_x (cfg (set_cfg odd_zone_config initial_globals)) <= WIDTH)
    by (cbn; unfold WIDTH; lia).
  assert (Hy : 0 <= deadzone_y (cfg (set_cfg odd_zone_config initial_globals)) <= HEIGHT)
    by (cbn; unfold HEIGHT; lia).
  destruct (drawDeadzone_against_check (set_cfg odd_zone_config initial_globals) Hx Hy)
    as (_ & _ & _ & _ & Hleft & _).
  exact Hleft.
Defined.

(** ** The statistics counter (lines 414-422) *)

(** X11: the counter stays between 1 and [STAT_REFRESH_RATE] and returns to its
    value after that many iterations: the statistics are redrawn on every
    fifteenth. *)
Theorem stat_tick_period (g : Globals) :
  1 <= stat_count g <= STAT_REFRESH_RATE ->
  1 <= stat_count (stat_tick g) <= STAT_REFRESH_RATE
  /\ Nat.iter 15 stat_tick g = g.
Proof.
  unfold STAT_REFRESH_RATE. intros H.
  destruct g as [sc fo al ca de px py ar c v]. cbn [stat_count] in H.
  assert (Hcases : sc = 1 \/ sc = 2 \/ sc = 3 \/ sc = 4 \/ sc = 5 \/ sc = 6 \/ sc = 7
                   \/ sc = 8 \/ sc = 9 \/ sc = 10 \/ sc = 11 \/ sc = 12 \/ sc = 13
                   \/ sc = 14 \/ sc = 15) by lia.
  repeat (destruct Hcases as [-> | Hcases]); try subst sc;
    (split; [vm_compute; split; discriminate | reflexivity]).
Qed.

Lemma stat_tick_period_witness : Nat.iter 15 stat_tick initial_globals = initial_globals.
Proof.
  apply (stat_tick_period initial_globals). cbn. unfold STAT_REFRESH_RATE. lia.
Defined.

(** ** Keys (lines 230-258) *)

Lemma bound_key_false (k : Z) :
  bound_key k = false -> Forall (fun c => (k =? chr c) = false) bound_keys.
Proof.
  unfold bound_key, bound_keys. cbn [existsb map]. rewrite !orb_false_iff.
  intros H. repeat (constructor; [tauto |]). constructor.
Qed.

Lemma keyFunctions_skip (k : Z) (og : bool) (w : World) :
  Forall (fun c => (k =? chr c) = false) bound_keys -> keyFunctions k og w = w.
Proof.
  intros H. unfold bound_keys in H.
  repeat (let Hc := fresh "Hc" in
          apply Forall_cons_iff in H; destruct H as [Hc H]).
  unfold keyFunctions.
  rewrite (on_key_other k " ") by assumption.
  rewrite (on_key_other k "c") by assumption.
  rewrite (on_key_other k "w") by assumption.
  rewrite (on_key_other k "s") by assumption.
  rewrite (on_key_other k "a") by assumption.
  rewrite (on_key_other k "d") by assumption.
  rewrite (on_key_other k "q") by assumption.
  rewrite (on_key_other k "e") by assumption.
  rewrite (on_key_other k "i") by assumption.
  rewrite (on_key_other k "k") by assumption.
  rewrite (on_key_other k "v") by assumption.
  rewrite (on_key_other k "t") by assumption.
  rewrite (on_key_other k "p") by assumption.
  rewrite (on_key_other k "f") by assumption.
  apply on_key_other. assumption.
Qed.

(** X12: a key that [keyFunctions] does not test changes nothing. *)
Theorem keyFunctions_unbound (k : Z) (og : bool) (w : World) :
  bound_key k = false -> keyFunctions k og w = w.
Proof.
  intros Hb. apply bound_key_false in Hb.
  apply keyFunctions_skip. exact Hb.
Qed.

Lemma keyFunctions_unbound_witness :
  keyFunctions (chr "x") true (world_of initial_globals) = world_of initial_globals.
Proof. apply keyFunctions_unbound. reflexivity. Defined.

Lemma bound_key_cases (k : Z) :
  bound_key k = true -> exists c, In c bound_keys /\ k = chr c.
Proof.
  unfold bound_key. rewrite existsb_exists. intros (z & Hz & Hk).
  apply in_map_iff in Hz. destruct Hz as (c & <- & Hc).
  exists c. split; [exact Hc | apply Z.eqb_eq, Hk].
Qed.

(** X13: the commands of a key press: Takeoff or Landing for the space bar
    (by what the drone reports), one command each for [v], [t] and [p], and
    none for any other key. *)
Theorem keyFunctions_commands (k : Z) (og : bool) (w : World) :
  sent (keyFunctions k og w)
  = match key_command k og with
    | Some c => sent w ++ [c]
    | None => sent w
    end.
Proof.
  destruct (bound_key k) eqn:Hb.
  - destruct (bound_key_cases k Hb) as (c & Hc & ->).
    unfold bound_keys in Hc. cbn [In] in Hc.
    repeat (destruct Hc as [<- | Hc]); try contradiction;
      try (destruct og; reflexivity).
    rewrite keyFunctions_c. apply toggle_sent.
  - rewrite (keyFunctions_skip k og w (bound_key_false k Hb)).
    unfold bound_key, bound_keys in Hb. cbn [existsb map] in Hb.
    rewrite !orb_false_iff in Hb.
    destruct Hb as (H1 & _ & _ & _ & _ & _ & _ & _ & _ & _ & H11 & H12 & H13 & _).
    unfold key_command. rewrite H1, H11, H12, H13. reflexivity.
Qed.

(** ** Configuration files (lines 138-190) *)

Lemma set_cfg_same (g : Globals) : set_cfg (cfg g) g = g.
Proof. destruct g. reflexivity. Qed.

Lemma set_glob_same (w : World) : set_glob (glob w) w = w.
Proof. destruct w. reflexivity. Qed.

Lemma saved_file_reads_back (w : World) :
  bit (camera (glob w)) ->
  read_config (active_file (saveConfigValues w)) = cfg (glob w).
Proof.
  intros [H | H].
  - rewrite (saveConfigValues_front w H). unfold active_file. simpl_globals.
    rewrite H. cbn [Z.eqb front_camera_config]. apply read_write_config.
  - rewrite (saveConfigValues_bottom w H). unfold active_file. simpl_globals.
    rewrite H. cbn [Z.eqb bottom_camera_config]. apply read_write_config.
Qed.

(** X14: with the camera at 0 or 1, loading right after saving gives back every
    global, and the file of the active camera then holds the active
    configuration. *)
Theorem save_then_load (w : World) :
  bit (camera (glob w)) ->
  glob (loadConfigValues (saveConfigValues w)) = glob w
  /\ read_config (active_file (saveConfigValues w)) = cfg (glob w)
  /\ saveConfigValues (saveConfigValues w) = saveConfigValues w.
Proof.
  intros Hcam. destruct w as [g f s]. destruct g as [sc fo al ca de px py ar c v].
  cbn [glob camera] in Hcam.
  destruct Hcam as [-> | ->];
    unfold loadConfigValues, active_file, saveConfigValues; simpl_globals;
    cbn [Z.eqb Pos.eqb]; simpl_globals;
    cbn [Z.eqb Pos.eqb front_camera_config bottom_camera_config];
    rewrite read_write_config; repeat split.
Qed.

Lemma save_then_load_witness :
  glob (loadConfigValues (saveConfigValues tuned_bottom_world)) = glob tuned_bottom_world.
Proof. apply (save_then_load tuned_bottom_world). right. reflexivity. Defined.

(** X15: saving writes the file of the active camera only, and no global. *)
Theorem saveConfigValues_writes (w : World) :
  glob (saveConfigValues w) = glob w
  /\ sent (saveConfigValues w) = sent w
  /\ (camera (glob w) <> 0 ->
      front_camera_config (files (saveConfigValues w)) = front_camera_config (files w))
  /\ (camera (glob w) <> 1 ->
      bottom_camera_config (files (saveConfigValues w)) = bottom_camera_config (files w)).
Proof.
  unfold saveConfigValues.
  destruct (Z.eqb_spec (camera (glob w)) 0) as [H0 | H0];
    [| destruct (Z.eqb_spec (camera (glob w)) 1) as [H1 | H1]];
    repeat split; intros; try reflexivity; try lia.
Qed.

(** X16: a file without the keys reads as ten zeros, not as the initial values of
    the globals: so does the file of the active camera when it is missing. *)
Theorem load_missing_file (w : World) :
  active_file w = ∅ -> bit (camera (glob w)) ->
  cfg (glob (loadConfigValues w)) = zero_config.
Proof.
  unfold active_file, loadConfigValues. simpl_globals.
  intros Hf [H | H]; rewrite H in *; cbn [Z.eqb] in *; rewrite Hf; reflexivity.
Qed.

Lemma load_missing_file_witness :
  cfg (glob (loadConfigValues (world_of initial_globals))) = zero_config.
Proof.
  apply (load_missing_file (world_of initial_globals)); [reflexivity | left; reflexivity].
Defined.

(** X17: pressing [c] twice gives back every global, on either camera. *)
Theorem toggle_twice (w : World) :
  bit (camera (glob w)) ->
  glob (toggle (toggle w)) = glob w /\ sent (toggle (toggle w)) = sent w.
Proof.
  intros Hcam. split; [| rewrite !toggle_sent; reflexivity].
  destruct Hcam as [H | H].
  - rewrite (toggle_front w H). rewrite toggle_bottom by reflexivity.
    simpl_globals. cbn [front_camera_config bottom_camera_config].
    rewrite read_write_config. destruct w as [g f s]. destruct g.
    cbn in H. subst. reflexivity.
  - rewrite (toggle_bottom w H). rewrite toggle_front by reflexivity.
    simpl_globals. cbn [front_camera_config bottom_camera_config].
    rewrite read_write_config. destruct w as [g f s]. destruct g.
    cbn in H. subst. reflexivity.
Qed.

Lemma toggle_twice_witness :
  glob (toggle (toggle tuned_bottom_world)) = glob tuned_bottom_world.
Proof. apply (toggle_twice tuned_bottom_world). right. reflexivity. Defined.

(** ** The loop of [main] (lines 385-430) *)

Lemma on_key_inv (P : World -> Prop) (k : Z) (c : ascii) (f : World -> World) (w : World) :
  (forall w, P w -> P (f w)) -> P w -> P (on_key k c f w).
Proof. intros Hf Hw. unfold on_key. destruct (k =? chr c); auto. Qed.

Lemma int_not_bit (z : Z) : bit (int_not z).
Proof. unfold int_not, bit. destruct (z =? 0); auto. Qed.

Lemma toggle_switches (w : World) :
  switches_ok (glob w) -> switches_ok (glob (toggle w)).
Proof.
  unfold switches_ok, toggle, loadConfigValues. simpl_globals.
  rewrite saveConfigValues_glob. intros (_ & H). split; [apply int_not_bit | exact H].
Qed.

Lemma keyFunctions_switches (k : Z) (og : bool) (w : World) :
  switches_ok (glob w) -> switches_ok (glob (keyFunctions k og w)).
Proof.
  intros Hw. unfold keyFunctions.
  repeat (apply (on_key_inv (fun w => switches_ok (glob w))); [clear; intros w Hw |]);
    try exact Hw; try (destruct og; exact Hw); try (apply toggle_switches; exact Hw).
  - unfold switches_ok in *. simpl_globals.
    destruct Hw as (H1 & H2 & _ & H4). repeat split; try assumption; try apply H4.
    apply int_not_bit.
  - unfold switches_ok in *. simpl_globals.
    destruct Hw as (H1 & _ & H3). repeat split; try assumption; try apply H3.
    apply int_not_bit.
Qed.

Lemma same_setup_refl (w : World) : same_setup w w.
Proof. repeat split. Qed.

Lemma keyFunctions_setup (k : Z) (og : bool) (w : World) :
  k <> chr "c" -> same_setup w (keyFunctions k og w).
Proof.
  intros Hk. apply Z.eqb_neq in Hk. unfold keyFunctions.
  rewrite (on_key_other k "c") by exact Hk.
  repeat (apply (on_key_inv (same_setup w)); [clear; intros w' Hw |]);
    try exact Hw; try (destruct og; exact Hw).
  apply same_setup_refl.
Qed.

Lemma followObject_keeps (w : World) :
  files (followObject w) = files w
  /\ stat_count (glob (followObject w)) = stat_count (glob w)
  /\ follow (glob (followObject w)) = follow (glob w)
  /\ auto_land (glob (followObject w)) = auto_land (glob w)
  /\ camera (glob (followObject w)) = camera (glob w)
  /\ detected (glob (followObject w)) = detected (glob w)
  /\ cfg (glob (followObject w)) = cfg (glob w).
Proof.
  unfold followObject.
  destruct (camera (glob w) =? 0); [| destruct (camera (glob w) =? 1)].
  - unfold follow_front. split_ifs; repeat split.
  - unfold follow_bottom, send. split_ifs; repeat split.
  - repeat split.
Qed.

Lemma follow_stage_keeps (w : World) :
  same_setup w (follow_stage w)
  /\ stat_count (glob (follow_stage w)) = stat_count (glob w)
  /\ follow (glob (follow_stage w)) = follow (glob w)
  /\ auto_land (glob (follow_stage w)) = auto_land (glob w)
  /\ detected (glob (follow_stage w)) = detected (glob w)
  /\ (truthy (follow (glob w)) = false -> follow_stage w = w).
Proof.
  unfold follow_stage, same_setup.
  destruct (followObject_keeps w) as (Hf & Hs & Hfo & Hal & Hc & Hd & Hcfg).
  destruct (truthy (detected (glob w))); destruct (truthy (follow (glob w)));
    repeat split; auto; discriminate.
Qed.

Lemma stat_tick_range (g : Globals) :
  1 <= stat_count g <= STAT_REFRESH_RATE ->
  1 <= stat_count (stat_tick g) <= STAT_REFRESH_RATE.
Proof.
  unfold stat_tick, STAT_REFRESH_RATE. intros H.
  destruct (Z.eqb_spec (stat_count g) 15); simpl_globals; [lia |].
  unfold int_add. rewrite wrap_in_int by solve_in_int. lia.
Qed.

Lemma after_moments_keeps (m : Moments) (w : World) :
  same_setup w (after_moments m w)
  /\ follow (glob (after_moments m w)) = follow (glob w)
  /\ auto_land (glob (after_moments m w)) = auto_land (glob w)
  /\ detected (glob (after_moments m w)) = snd (locate m (glob w))
  /\ stat_count (glob (after_moments m w))
     = stat_count (stat_tick (glob w)).
Proof.
  unfold after_moments.
  destruct (locate_keeps m (glob w)) as (_ & Hcfg & Hcam & Hfo & Hal).
  set (w1 := set_glob (set_detected (snd (locate m (glob w))) (fst (locate m (glob w)))) w).
  destruct (follow_stage_keeps w1) as ((Hf & Hc & Hca) & Hsc & Hfo' & Hal' & Hd & _).
  destruct (stat_tick_keeps (glob (follow_stage w1))) as (_ & Hd2 & Hcfg2 & Hcam2 & Hfo2 & Hal2).
  unfold same_setup. simpl_globals.
  rewrite Hd2, Hcfg2, Hcam2, Hfo2, Hal2, Hf, Hc, Hca, Hfo', Hal', Hd.
  subst w1. simpl_globals.
  repeat split; try assumption.
  unfold stat_tick. rewrite Hsc. simpl_globals.
  assert (Hst : stat_count (fst (locate m (glob w))) = stat_count (glob w)).
  { unfold locate. simpl_globals. destruct (_ >? _); reflexivity. }
  rewrite Hst. destruct (_ =? _); reflexivity.
Qed.

Lemma locate_bit (m : Moments) (g : Globals) : bit (snd (locate m g)).
Proof. rewrite locate_found. unfold bit. destruct (_ >? _); auto. Qed.

Lemma move_sliders_switches (moves : list (Trackbar * Z)) (w : World) :
  switches_ok (glob w) -> switches_ok (glob (move_sliders moves w)).
Proof.
  destruct (move_sliders_keeps moves w) as (_ & _ & _ & H4 & H5 & H6 & H7 & H8).
  unfold switches_ok. rewrite H4, H5, H6, H7, H8. auto.
Qed.

Lemma after_keys_switches (inp : Input) (w : World) :
  switches_ok (glob w) -> switches_ok (glob (after_keys inp w)).
Proof.
  intros Hw. apply keyFunctions_switches, move_sliders_switches, Hw.
Qed.

Lemma after_keys_vel (inp : Input) (w : World) :
  manual_key (key inp) = false -> vel (glob (after_keys inp w)) = vel (glob w).
Proof.
  intros Hk. unfold after_keys. rewrite (keyFunctions_vel _ _ _ Hk).
  apply move_sliders_keeps.
Qed.

Lemma after_keys_bounded (inp : Input) (w : World) :
  setpoints_bounded (vel (glob w)) = true ->
  setpoints_bounded (vel (glob (after_keys inp w))) = true.
Proof.
  intros Hb. apply keyFunctions_bounded.
  destruct (move_sliders_keeps (sliders inp) w) as (_ & _ & Hv & _).
  rewrite Hv. exact Hb.
Qed.

Lemma move_config_app (a b : list (Trackbar * Z)) (c : Config) :
  move_config (a ++ b) c = move_config b (move_config a c).
Proof. apply fold_left_app. Qed.

(** The deadzone has no slider. *)
Lemma move_config_deadzone (moves : list (Trackbar * Z)) (c : Config) :
  deadzone_x (move_config moves c) = deadzone_x c
  /\ deadzone_y (move_config moves c) = deadzone_y c.
Proof.
  revert c. induction moves as [| [t pos] rest IH]; intros c; [split; reflexivity |].
  cbn [move_config fold_left]. fold (move_config rest (set_trackbar (t, pos) c)).
  destruct (IH (set_trackbar (t, pos) c)) as [Hx Hy]. rewrite Hx, Hy.
  destruct t; split; reflexivity.
Qed.

(** Slider positions are not negative, so the sliders keep [min_area] from
    being negative. *)
Lemma move_config_min_area (moves : list (Trackbar * Z)) (c : Config) :
  Forall slider_ok moves -> 0 <= min_area c -> 0 <= min_area (move_config moves c).
Proof.
  intros Hok. revert c. induction Hok as [| [t pos] rest Hmove Hrest IH]; intros c Hc.
  - exact Hc.
  - cbn [move_config fold_left]. fold (move_config rest (set_trackbar (t, pos) c)).
    apply IH. unfold slider_ok in Hmove. cbn [fst snd] in Hmove.
    destruct t; cbn [set_trackbar fst snd min_area]; solve [exact Hc | lia].
Qed.

(** The key handling of an iteration whose key is not [c]: no file is
    written, the camera stays, and the configuration is the one the sliders
    left. *)
Lemma after_keys_setup (inp : Input) (w : World) :
  key inp <> chr "c" ->
  files (after_keys inp w) = files w
  /\ camera (glob (after_keys inp w)) = camera (glob w)
  /\ cfg (glob (after_keys inp w)) = move_config (sliders inp) (cfg (glob w)).
Proof.
  intros Hk. unfold after_keys.
  destruct (keyFunctions_setup (key inp) (on_ground inp)
              (move_sliders (sliders inp) w) Hk) as (Hf & Hc & Hcam).
  destruct (move_sliders_keeps (sliders inp) w) as (Hf' & _ & _ & Hcam' & _).
  rewrite Hf, Hc, Hcam, Hf', Hcam', move_sliders_cfg. auto.
Qed.

Lemma cycle_switches {cv : Vision} (inp : Input) (w : World) :
  switches_ok (glob w) -> switches_ok (glob (cycle inp w)).
Proof.
  intros Hw. unfold cycle.
  pose proof (after_keys_switches inp w Hw) as Hk.
  set (wk := after_keys inp w) in *.
  destruct (after_moments_keeps
              (moments (result_image (segment (frame inp) (cfg (glob wk))))) wk)
    as ((_ & _ & Hcam) & Hfo & Hal & Hd & Hsc).
  unfold switches_ok in *. rewrite Hcam, Hfo, Hal, Hd, Hsc.
  destruct Hk as (H1 & H2 & H3 & _ & H5).
  repeat split; try assumption; try apply locate_bit; apply stat_tick_range, H5.
Qed.

Lemma saveConfigValues_switches (w : World) :
  switches_ok (glob w) -> switches_ok (glob (saveConfigValues w)).
Proof. rewrite saveConfigValues_glob. auto. Qed.

Lemma main_loop_switches {cv : Vision} (inputs : list Input) (w : World) :
  switches_ok (glob w) -> switches_ok (glob (main_loop inputs w)).
Proof.
  revert w. induction inputs as [| inp rest IH]; intros w Hw; cbn [main_loop].
  - exact Hw.
  - destruct (key inp =? ESC).
    + apply saveConfigValues_switches, move_sliders_switches, Hw.
    + apply IH, cycle_switches, Hw.
Qed.

(** X19: whatever the inputs and the files, the program keeps [camera], [follow],
    [auto_land] and [detected] at 0 or 1 and the statistics counter between
    1 and 15: the branches of [followObject], [loadConfigValues] and
    [saveConfigValues] for another camera value are never taken. *)
Theorem main_switches {cv : Vision} (inputs : list Input) (disk : Files) :
  switches_ok (glob (main inputs disk)).
Proof.
  unfold main. apply main_loop_switches.
  unfold loadConfigValues, switches_ok, bit, STAT_REFRESH_RATE. simpl_globals. cbn.
  repeat split; auto; lia.
Qed.

Lemma same_setup_trans (w1 w2 w3 : World) :
  same_setup w1 w2 -> same_setup w2 w3 -> same_setup w1 w3.
Proof.
  unfold same_setup. intros (H1 & H2 & H3) (H1' & H2' & H3').
  rewrite H1', H2', H3'. auto.
Qed.

Lemma cycle_setup {cv : Vision} (inp : Input) (w : World) :
  key inp <> chr "c" ->
  files (cycle inp w) = files w
  /\ camera (glob (cycle inp w)) = camera (glob w)
  /\ cfg (glob (cycle inp w)) = move_config (sliders inp) (cfg (glob w)).
Proof.
  intros Hk. unfold cycle.
  destruct (after_keys_setup inp w Hk) as (Hf & Hcam & Hc).
  set (wk := after_keys inp w) in *.
  destruct (after_moments_keeps
              (moments (result_image (segment (frame inp) (cfg (glob wk))))) wk)
    as ((Hf' & Hc' & Hcam') & _).
  rewrite Hf', Hc', Hcam'. auto.
Qed.

(** X20: an iteration whose key is not [c] writes no file and leaves the
    camera; the configuration after it is the one before it with the slider
    positions that [waitKey] stored, so the same when no slider was moved,
    and the deadzone (which has no slider) in any case: the detection and
    the follow controller write none of them. *)
Theorem cycle_keeps_setup {cv : Vision} (inp : Input) (w : World) :
  key inp <> chr "c" ->
  files (cycle inp w) = files w
  /\ camera (glob (cycle inp w)) = camera (glob w)
  /\ cfg (glob (cycle inp w)) = move_config (sliders inp) (cfg (glob w))
  /\ deadzone_x (cfg (glob (cycle inp w))) = deadzone_x (cfg (glob w))
  /\ deadzone_y (cfg (glob (cycle inp w))) = deadzone_y (cfg (glob w))
  /\ (sliders inp = [] -> same_setup w (cycle inp w)).
Proof.
  intros Hk. unfold cycle.
  destruct (after_keys_setup inp w Hk) as (Hf & Hcam & Hc).
  set (wk := after_keys inp w) in *.
  destruct (after_moments_keeps
              (moments (result_image (segment (frame inp) (cfg (glob wk))))) wk)
    as ((Hf' & Hc' & Hcam') & _).
  destruct (move_config_deadzone (sliders inp) (cfg (glob w))) as [Hdx Hdy].
  unfold same_setup. rewrite Hf', Hc', Hcam', Hf, Hc, Hcam, Hdx, Hdy.
  do 5 (split; [reflexivity |]). intros ->. repeat split.
Qed.

Lemma cycle_keeps_setup_witness :
  cfg (glob (cycle (cv := dots_vision)
                   (mkInput (chr "f") [(ValLow, 100); (AreaMax, 7)] false one_dot_frame)
                   (world_of bright_globals)))
  = mkConfig 0 179 0 255 100 255 0 7 320 180.
Proof.
  destruct (cycle_keeps_setup (cv := dots_vision)
              (mkInput (chr "f") [(ValLow, 100); (AreaMax, 7)] false one_dot_frame)
              (world_of bright_globals)) as (_ & _ & Hcfg & _).
  - vm_compute. discriminate.
  - rewrite Hcfg. reflexivity.
Defined.

Lemma main_loop_saved {cv : Vision} (inputs : list Input) (w : World) :
  switches_ok (glob w) -> In ESC (map key inputs) ->
  read_config (active_file (main_loop inputs w)) = cfg (glob (main_loop inputs w)).
Proof.
  revert w. induction inputs as [| inp rest IH]; intros w Hw Hin; cbn [main_loop].
  - destruct Hin.
  - destruct (Z.eqb_spec (key inp) ESC) as [He | Hne].
    + destruct (move_sliders_switches (sliders inp) w Hw) as (Hcam & _).
      rewrite (saved_file_reads_back _ Hcam), saveConfigValues_glob. reflexivity.
    + cbn [map In] in Hin. destruct Hin as [Hin | Hin]; [congruence |].
      apply IH; [apply cycle_switches, Hw | exact Hin].
Qed.

(** X21: when the loop is left with ESC, the file of the camera then active holds
    the configuration then active. *)
Theorem main_saves_on_exit {cv : Vision} (inputs : list Input) (disk : Files) :
  In ESC (map key inputs) ->
  read_config (active_file (main inputs disk)) = cfg (glob (main inputs disk)).
Proof.
  intros Hin. unfold main. apply main_loop_saved; [| exact Hin].
  unfold loadConfigValues, switches_ok, bit, STAT_REFRESH_RATE. simpl_globals. cbn.
  repeat split; auto; lia.
Qed.

Lemma main_saves_on_exit_witness :
  read_config
    (active_file
       (main (cv := dots_vision)
             [mkInput (chr "c") [] false dark_frame; mkInput ESC [] false dark_frame]
             (mkFiles ∅ (write_config bright_config))))
  = bright_config.
Proof.
  rewrite (main_saves_on_exit (cv := dots_vision)); [| right; left; reflexivity].
  vm_compute. reflexivity.
Defined.

Lemma main_loop_setup {cv : Vision} (inputs : list Input) (w : World) :
  Forall (fun inp => key inp <> chr "c" /\ key inp <> ESC) inputs ->
  files (main_loop inputs w) = files w
  /\ camera (glob (main_loop inputs w)) = camera (glob w)
  /\ cfg (glob (main_loop inputs w))
     = move_config (concat (map sliders inputs)) (cfg (glob w)).
Proof.
  revert w. induction inputs as [| inp rest IH]; intros w Hall; cbn [main_loop].
  - repeat split.
  - apply Forall_cons_iff in Hall. destruct Hall as [[Hc He] Hrest].
    apply Z.eqb_neq in He. rewrite He.
    destruct (cycle_setup inp w Hc) as (H1 & H2 & H3).
    destruct (IH (cycle inp w) Hrest) as (H1' & H2' & H3').
    cbn [map concat]. rewrite move_config_app, H1', H2', H3', H1, H2, H3. auto.
Qed.

Lemma no_moves (inputs : list Input) :
  Forall (fun inp => sliders inp = []) inputs -> concat (map sliders inputs) = [].
Proof.
  intros H. induction H as [| inp rest Hinp Hrest IH]; [reflexivity |].
  cbn [map concat]. rewrite Hinp, IH. reflexivity.
Qed.

(** X22: while neither [c] nor ESC is pressed the program writes no file and
    stays on the FRONT camera; its configuration is what it read from the
    front file at the start (zeros for every key the file lacks, all ten for
    a missing file) with the slider positions stored since, in their order.
    The deadzone is the one of the file throughout. *)
Theorem main_reads_front_file {cv : Vision} (inputs : list Input) (disk : Files) :
  Forall (fun inp => key inp <> chr "c" /\ key inp <> ESC) inputs ->
  files (main inputs disk) = disk
  /\ camera (glob (main inputs disk)) = 0
  /\ cfg (glob (main inputs disk))
     = move_config (concat (map sliders inputs))
                   (read_config (front_camera_config disk))
  /\ deadzone_x (cfg (glob (main inputs disk)))
     = deadzone_x (read_config (front_camera_config disk))
  /\ deadzone_y (cfg (glob (main inputs disk)))
     = deadzone_y (read_config (front_camera_config disk))
  /\ (Forall (fun inp => sliders inp = []) inputs ->
      cfg (glob (main inputs disk)) = read_config (front_camera_config disk)
      /\ (front_camera_config disk = ∅ ->
          cfg (glob (main inputs disk)) = zero_config)).
Proof.
  intros Hall. unfold main.
  destruct (main_loop_setup inputs
              (loadConfigValues (mkWorld initial_globals disk [])) Hall)
    as (Hf & Hcam & Hc).
  rewrite Hf, Hc, Hcam. unfold loadConfigValues. simpl_globals. cbn [Z.eqb].
  destruct (move_config_deadzone (concat (map sliders inputs))
              (read_config (front_camera_config disk))) as [Hdx Hdy].
  do 3 (split; [reflexivity |]).
  split; [exact Hdx |]. split; [exact Hdy |].
  intros Hnone. rewrite (no_moves inputs Hnone). split; [reflexivity |].
  intros ->. reflexivity.
Qed.

Lemma main_reads_front_file_witness :
  cfg (glob (main (cv := dots_vision)
                  [mkInput (chr "f") [(HueHigh, 90)] false one_dot_frame;
                   mkInput (-1) [(AreaMax, 250); (HueHigh, 120)] false dark_frame]
                  (mkFiles ∅ (write_config bright_config))))
  = mkConfig 0 120 0 0 0 0 0 250 0 0.
Proof.
  destruct (main_reads_front_file (cv := dots_vision)
              [mkInput (chr "f") [(HueHigh, 90)] false one_dot_frame;
               mkInput (-1) [(AreaMax, 250); (HueHigh, 120)] false dark_frame]
              (mkFiles ∅ (write_config bright_config))) as (_ & _ & Hcfg & _).
  - repeat constructor; vm_compute; discriminate.
  - rewrite Hcfg. reflexivity.
Defined.

(** X23: with following switched off when the keys have been handled, an
    iteration never runs [followObject], whatever is detected: the set-points
    and the commands sent are those left by the key handling, whatever the
    sliders stored during [waitKey]. *)
Theorem cycle_not_following {cv : Vision} (inp : Input) (w : World) :
  truthy (follow (glob (after_keys inp w))) = false ->
  vel (glob (cycle inp w)) = vel (glob (after_keys inp w))
  /\ sent (cycle inp w) = sent (after_keys inp w)
  /\ (manual_key (key inp) = false -> vel (glob (cycle inp w)) = vel (glob w))
  /\ vel (glob (cycle inp w)) = vel (glob (keyFunctions (key inp) (on_ground inp) w))
  /\ sent (cycle inp w) = sent (keyFunctions (key inp) (on_ground inp) w).
Proof.
  intros Hoff. destruct (after_keys_flight inp w) as [Hkv Hks].
  rewrite <- Hkv, <- Hks. unfold cycle, after_moments.
  set (wk := after_keys inp w) in *.
  set (m := moments (result_image (segment (frame inp) (cfg (glob wk))))).
  destruct (locate_keeps m (glob wk)) as (Hvel & _ & _ & Hfo & _).
  set (w1 := set_glob (set_detected (snd (locate m (glob wk))) (fst (locate m (glob wk)))) wk).
  destruct (follow_stage_keeps w1) as (_ & _ & _ & _ & _ & Hsame).
  rewrite Hsame by (subst w1; simpl_globals; rewrite Hfo; exact Hoff).
  destruct (stat_tick_keeps (glob w1)) as (Hv & _).
  simpl_globals. rewrite Hv. subst w1. simpl_globals. rewrite Hvel.
  repeat split. intros Hk. subst wk. apply after_keys_vel, Hk.
Qed.

Lemma cycle_not_following_witness :
  vel (glob (cycle (cv := dots_vision) (mkInput (-1) [] false one_dot_frame)
                   (world_of bright_globals)))
  = vel (glob (world_of bright_globals)).
Proof.
  destruct (cycle_not_following (cv := dots_vision)
              (mkInput (-1) [] false one_dot_frame) (world_of bright_globals))
    as (_ & _ & Hvel & _).
  - reflexivity.
  - apply Hvel. reflexivity.
Defined.

(** X18: pressing [f] twice, or [l] twice, gives back the world it started from. *)
Theorem switch_keys_twice (og og' : bool) (w : World) :
  (bit (follow (glob w)) ->
   keyFunctions (chr "f") og' (keyFunctions (chr "f") og w) = w)
  /\ (bit (auto_land (glob w)) ->
      keyFunctions (chr "l") og' (keyFunctions (chr "l") og w) = w).
Proof.
  destruct w as [g f s]. destruct g as [sc fo al ca de px py ar c v].
  split; intros [H | H]; cbn in H; subst; reflexivity.
Qed.

Lemma switch_keys_twice_witness :
  keyFunctions (chr "f") false (keyFunctions (chr "f") false landing_world) = landing_world.
Proof. apply (switch_keys_twice false false landing_world). right. reflexivity. Defined.

(** ** Set-points through an iteration *)

Lemma followObject_bounded (w : World) :
  0 <= pos_x (glob w) < WIDTH -> 0 <= pos_y (glob w) < HEIGHT ->
  setpoints_bounded (vel (glob w)) = true ->
  setpoints_bounded (vel (glob (followObject w))) = true.
Proof.
  intros Hx Hy Hb. unfold setpoints_bounded in *.
  rewrite !andb_true_iff in Hb. destruct Hb as [[[Hvx Hvy] Hvz] Hvr].
  rewrite (vx_followObject_bounded w Hy Hvx), (vy_followObject_bounded w Hx Hvy),
    (vz_followObject_bounded w Hy Hvz).
  destruct (vr_followObject_cases w) as [-> | ->];
    [exact Hvr | apply front_vr_within, Hx].
Qed.

(** X24: an iteration keeps the set-points in their ranges (forward,
    sideways and vertical within [-1, 1], yaw rate within [-1.6, 1.6]),
    whatever the key and the slider moves, when the image whose moments are
    taken is an 8-bit image that fits the frame and [min_area] is not
    negative when the detection runs: the detected centroid is then a pixel
    of the frame, and the keys assign 1 or -1. *)
Theorem cycle_setpoints_bounded {cv : Vision} (inp : Input) (w : World) :
  pixels_8bit (result_image (segment (frame inp) (cfg (glob (after_keys inp w))))) ->
  fits HEIGHT WIDTH (result_image (segment (frame inp) (cfg (glob (after_keys inp w))))) ->
  0 <= min_area (cfg (glob (after_keys inp w))) ->
  in_int (min_area (cfg (glob (after_keys inp w))) * 100000) ->
  setpoints_bounded (vel (glob w)) = true ->
  setpoints_bounded (vel (glob (cycle inp w))) = true.
Proof.
  intros Hpix Hfit Hmin Hint Hb. unfold cycle, after_moments.
  pose proof (after_keys_bounded inp w Hb) as Hbk.
  set (wk := after_keys inp w) in *.
  set (img := result_image (segment (frame inp) (cfg (glob wk)))) in *.
  destruct (locate_keeps (moments img) (glob wk)) as (Hvel & _).
  set (w1 := set_glob (set_detected (snd (locate (moments img) (glob wk)))
                                    (fst (locate (moments img) (glob wk)))) wk).
  destruct (stat_tick_keeps (glob (follow_stage w1))) as (Hv & _).
  simpl_globals. rewrite Hv.
  assert (Hb1 : setpoints_bounded (vel (glob w1)) = true).
  { subst w1. simpl_globals. rewrite Hvel. exact Hbk. }
  unfold follow_stage.
  destruct (truthy (detected (glob w1))) eqn:Hdet; [| exact Hb1].
  destruct (truthy (follow (glob w1))); [| exact Hb1].
  assert (Hfound : snd (locate (moments img) (glob wk)) = 1).
  { subst w1. revert Hdet. simpl_globals.
    destruct (locate_bit (moments img) (glob wk)) as [-> | ->];
      [discriminate | reflexivity]. }
  pose proof (fits_support _ _ _ Hfit) as Hsup.
  destruct (locate_in_support 0 (WIDTH - 1) 0 (HEIGHT - 1) img (glob wk) Hpix Hsup)
    as [Hx Hy]; try (unfold WIDTH, HEIGHT, INT_MAX; lia);
    try assumption.
  apply followObject_bounded; [| | exact Hb1]; subst w1; simpl_globals; lia.
Qed.

Lemma cycle_setpoints_bounded_witness :
  setpoints_bounded
    (vel (glob (cycle (cv := dots_vision)
                      (mkInput (chr "w") [(AreaMin, 0)] false one_dot_frame)
                      (set_glob (set_follow 1 bright_globals) (world_of bright_globals)))))
  = true.
Proof.
  apply (cycle_setpoints_bounded (cv := dots_vision)).
  - apply pixels_8bitb_correct. vm_compute. reflexivity.
  - apply fitsb_correct. vm_compute. reflexivity.
  - vm_compute. discriminate.
  - solve_in_int.
  - reflexivity.
Defined.

(** ** Automatic landing over an episode *)

Lemma keyFunctions_sent (k : Z) (og : bool) (w : World) :
  sent (keyFunctions k og w)
  = sent w ++ match key_command k og with
              | Some c => [c]
              | None => []
              end.
Proof.
  destruct (bound_key k) eqn:Hb.
  - destruct (bound_key_cases k Hb) as (c & Hc & ->).
    unfold bound_keys in Hc. cbn [In] in Hc.
    repeat (destruct Hc as [<- | Hc]); try contradiction;
      match goal with
      | |- context [key_command ?key ?o] =>
          let v := eval vm_compute in (key_command key o) in
          change (key_command key o) with v
      end; cbv iota; rewrite ?app_nil_r;
      try (destruct og; reflexivity).
    rewrite keyFunctions_c. apply toggle_sent.
  - rewrite (keyFunctions_skip k og w (bound_key_false k Hb)).
    unfold bound_key, bound_keys in Hb. cbn [existsb map] in Hb.
    rewrite !orb_false_iff in Hb.
    destruct Hb as (H1 & _ & _ & _ & _ & _ & _ & _ & _ & _ & H11 & H12 & H13 & _).
    unfold key_command. rewrite H1, H11, H12, H13. symmetry. apply app_nil_r.
Qed.

Lemma after_keys_landings (inp : Input) (w : World) :
  landings (after_keys inp w) = (landings w + key_landing inp)%nat.
Proof.
  unfold landings, after_keys, key_landing. rewrite keyFunctions_sent.
  destruct (move_sliders_keeps (sliders inp) w) as (_ & Hs & _). rewrite Hs.
  rewrite count_occ_app.
  destruct (key_command (key inp) (on_ground inp)) as [[] |]; reflexivity.
Qed.

Lemma landing_cycle_sent {cv : Vision} (inp : Input) (w : World) :
  landing_cycle inp w -> sent (cycle inp w) = sent (after_keys inp w) ++ [Landing].
Proof.
  intros (_ & Hcam & Hfol & Hland & Hmin & Hmax & Ha & Hb). unfold cycle.
  apply after_moments_lands; try assumption.
  - unfold int_mul. rewrite (wrap_in_int _ Hmin). rewrite Z.gtb_ltb. apply Z.ltb_lt. lia.
  - unfold int_mul. rewrite (wrap_in_int _ Hmax). rewrite Z.gtb_ltb. apply Z.ltb_lt. lia.
Qed.

(** The iterations of an episode after its first ones form an episode of
    the world those left. *)
Lemma landing_episode_app {cv : Vision} (pre post : list Input) (w : World) :
  landing_episode (pre ++ post) w -> landing_episode post (main_loop pre w).
Proof.
  revert w. induction pre as [| inp pre IH]; intros w Hep; [exact Hep |].
  destruct Hep as [Hcyc Hrest]. destruct Hcyc as (Hesc & _).
  cbn [main_loop]. apply Z.eqb_neq in Hesc. rewrite Hesc. apply IH, Hrest.
Qed.

(** C5, as the code has it: in BOTTOM mode, every iteration in which (once
    [waitKey] and the key handling are done) following and automatic landing
    are on and the area exceeds the scaled maximum (and the scaled minimum,
    so that the object counts as detected) has [followObject] send the land
    command once, after what the key handling sent.  Over an episode of n
    such iterations, whatever keys are pressed and sliders moved, the land
    commands sent are n by [followObject] and one for each press of the
    space bar in flight. *)
Theorem landing_every_cycle {cv : Vision} (inputs : list Input) (w : World) :
  landing_episode inputs w ->
  landings (main_loop inputs w)
  = (landings w + key_landings inputs + length inputs)%nat
  /\ (forall pre inp post, inputs = pre ++ inp :: post ->
      sent (cycle inp (main_loop pre w))
      = sent (after_keys inp (main_loop pre w)) ++ [Landing]).
Proof.
  intros Hep. split.
  - revert w Hep. induction inputs as [| inp rest IH]; intros w Hep.
    + cbn. lia.
    + destruct Hep as [Hcyc Hrest].
      pose proof (landing_cycle_sent inp w Hcyc) as Hsent.
      destruct Hcyc as (Hesc & _).
      cbn [main_loop length key_landings].
      apply Z.eqb_neq in Hesc. rewrite Hesc.
      rewrite (IH _ Hrest).
      unfold landings at 1. rewrite Hsent, count_occ_app.
      fold (landings (after_keys inp w)). rewrite after_keys_landings.
      cbn. lia.
  - intros pre inp post ->.
    destruct (landing_episode_app pre (inp :: post) w Hep) as [Hcyc _].
    apply landing_cycle_sent, Hcyc.
Qed.

Lemma landing_every_cycle_witness :
  landings (main_loop (cv := dots_vision)
              [idle_input one_dot_frame;
               mkInput (chr " ") [(AreaMax, 0)] false one_dot_frame;
               idle_input one_dot_frame]
              dots_landing_world) = 4%nat.
Proof.
  apply (landing_every_cycle (cv := dots_vision)
           [idle_input one_dot_frame;
            mkInput (chr " ") [(AreaMax, 0)] false one_dot_frame;
            idle_input one_dot_frame]
           dots_landing_world).
  cbn [landing_episode]. unfold landing_cycle.
  repeat split; try (vm_compute; reflexivity); try (vm_compute; discriminate).
Defined.
